(** * mapper/transaction.go: operations of ordinary and atomic transactions

    A shallow embedding of [Transaction], [traceOps], [erc20Ops], [erc721Ops],
    [crossChainTransaction] and [createExportedOuts], and the properties of
    the operation sequences they build.

    Conventions of the embedding.
    - [*big.Int] is [Z]; an [Amount.Value] string is the integer it renders
      ([big.Int.String] and [strconv.FormatUint] are decimal renderings).
    - [uint64] is a [Z] in [0, 2^64); the one conversion the code makes to
      [int64] on a value that can exceed it is written out ([to_int64]).
      Operation indices are slice lengths and offsets of them, far below
      [2^63], and are kept as [Z].
    - a Go map is a [gmap]; the order in which [range] visits its keys is
      chosen by the runtime and is an explicit argument ([RangeOrder]).
    - a function returns a [result]: a value, a returned [error], the
      process exit of [log.Fatalf], or a run-time panic. *)

From stdpp Require Import gmap strings list fin_maps pretty.
From Stdlib Require Import ZArith Lia.

Local Open Scope Z_scope.

(** ** Results *)

Definition Error := string.

Inductive result (A : Type) : Type :=
| Ok (a : A)
| Err (e : Error)
| Fatal (msg : string)
| Panic.

Arguments Ok {A} a.
Arguments Err {A} e.
Arguments Fatal {A} msg.
Arguments Panic {A}.

Definition bind {A B} (r : result A) (k : A -> result B) : result B :=
  match r with
  | Ok a => k a
  | Err e => Err e
  | Fatal m => Fatal m
  | Panic => Panic
  end.

Notation "x <- r ;; k" := (bind r (fun x => k))
  (at level 100, r at next level, right associativity, only parsing).

Fixpoint foldM {A S} (f : S -> A -> result S) (s : S) (l : list A) : result S :=
  match l with
  | [] => Ok s
  | a :: l' => s' <- f s a ;; foldM f s' l'
  end.

(** ** Data model (rosetta-sdk-go [types], go-ethereum, avalanchego) *)

(** [common.Address]: 20 bytes, big-endian. [common.Hash]: 32 bytes. *)
Definition Address := Z.
Definition Hash := Z.
(** [ids.ID] and [ids.ShortID] by their canonical renderings. *)
Definition ID := string.
Definition ShortID := string.

Definition zeroAddress : Address := 0.

(** [common.BytesToAddress] of the 32 bytes of a hash: the last 20 bytes. *)
Definition BytesToAddress (h : Hash) : Address := h mod 2 ^ 160.

Inductive Status := StatusSuccess | StatusFailure.

Global Instance Status_eq_dec : EqDecision Status.
Proof. solve_decision. Defined.

Record Currency := { Symbol : string; Decimals : Z }.

Record Amount := { Value : Z; AmountCurrency : Currency }.

Inductive MetaValue :=
| MString (s : string)
| MStrings (l : list string)
| MNum (n : Z)
| MTxMetadata (id : ID).               (* the [evm.Metadata] of an atomic tx *)

Record UTXOID := { UTXO_TxID : ID; UTXO_OutputIndex : Z }.

Inductive CoinAction := CoinCreated | CoinSpent.

Record Operation := {
  OperationIdentifier : option Z;      (* nil until an index is assigned *)
  RelatedOperations : list Z;
  OpType : string;
  OpStatus : Status;
  Account : string;
  OpAmount : option Amount;
  CoinChange : option (UTXOID * CoinAction);
  Metadata : gmap string MetaValue
}.

Definition setOperationIdentifier (i : Z) (op : Operation) : Operation :=
  {| OperationIdentifier := Some i;
     RelatedOperations := RelatedOperations op;
     OpType := OpType op;
     OpStatus := OpStatus op;
     Account := Account op;
     OpAmount := OpAmount op;
     CoinChange := CoinChange op;
     Metadata := Metadata op |}.

(** [clientTypes.FlatCall] *)
Record FlatCall := {
  CallKind : string;                   (* call.Type *)
  From : Address;
  To : Address;
  CallValue : Z;                       (* call.Value *)
  Revert : bool;
  CallError : string                   (* call.Error *)
}.

(** [clientTypes.Call]: the call tree that the flattened trace comes from;
    [Transaction] only stores it in the metadata. *)
#[local] Unset Elimination Schemes.
Inductive Call := CallNode (call : FlatCall) (calls : list Call).
#[local] Set Elimination Schemes.

(** ** What the file takes from the rest of the repository and from its
    libraries: constants and helpers of [mapper/types.go],
    [mapper/helper.go], [client] and [constants], and the renderings of
    go-ethereum and avalanchego. *)

Class Env := {
  CallType : string -> bool;
  CreateType : string -> bool;
  EqualFoldContains : list string -> string -> bool;
  OpFee : string;
  OpSelfDestruct : string;
  OpDestruct : string;
  OpImport : string;
  OpExport : string;
  OpErc20Transfer : string;
  OpErc20Mint : string;
  OpErc20Burn : string;
  OpErc721TransferSender : string;
  OpErc721TransferReceive : string;
  OpErc721Mint : string;
  OpErc721Burn : string;
  ContractAddressMetadata : string;
  IndexTransferredMetadata : string;
  UnknownERC20Symbol : string;
  UnknownERC721Symbol : string;
  AvaxCurrency : Currency;
  AtomicAvaxCurrency : Currency;
  ToCurrency : string -> Z -> Address -> Currency;
  Erc20Amount : list Z -> Currency -> bool -> option Amount;
  AddressString : Address -> string;   (* Address.String / Address.Hex *)
  HashString : Hash -> string;         (* Hash.String *)
  GetHRP : string -> result string;
  addressFormat : string -> string -> ShortID -> result string
}.

(** The order in which one [range] over a map visits the keys. *)
Definition RangeOrder := list string -> list string.

(** Go's guarantee: every key is visited exactly once. *)
Definition valid_range (rho : RangeOrder) : Prop :=
  forall l, rho l ≡ₚ l.

Definition rangeKeys {V} (rho : RangeOrder) (m : gmap string V) : list string :=
  rho (map fst (map_to_list m)).

Definition rangeEntries {V} (rho : RangeOrder) (m : gmap string V) : list (string * V) :=
  omap (fun k => pair k <$> (m !! k)) (rangeKeys rho m).

(** [ops[len(ops)-1].OperationIdentifier.Index] *)
Definition lastOpIndex (ops : list Operation) : result Z :=
  match last ops with
  | Some op => match OperationIdentifier op with
               | Some i => Ok i
               | None => Panic
               end
  | None => Panic
  end.

Section Mapper.
Context `{E : Env}.

(** [AvaxAmount] and [AtomicAvaxAmount] of [mapper/helper.go]. *)
Definition AvaxAmount (v : Z) : option Amount :=
  Some {| Value := v; AmountCurrency := AvaxCurrency |}.

Definition AtomicAvaxAmount (v : Z) : option Amount :=
  Some {| Value := v; AmountCurrency := AtomicAvaxCurrency |}.

(** ** traceOps *)

Definition fromOp (call : FlatCall) (index : Z) : Operation :=
  let zeroValue := bool_decide (CallValue call = 0) in
  {| OperationIdentifier := Some index;
     RelatedOperations := [];
     OpType := CallKind call;
     OpStatus := if Revert call then StatusFailure else StatusSuccess;
     Account := AddressString (From call);
     OpAmount := if zeroValue then None else AvaxAmount (- CallValue call);
     CoinChange := None;
     Metadata := if Revert call then {[ "error" := MString (CallError call) ]} else ∅ |}.

Definition toOp (call : FlatCall) (lastOpIndex : Z) : Operation :=
  let zeroValue := bool_decide (CallValue call = 0) in
  {| OperationIdentifier := Some (lastOpIndex + 1);
     RelatedOperations := [lastOpIndex];
     OpType := CallKind call;
     OpStatus := if Revert call then StatusFailure else StatusSuccess;
     Account := AddressString (To call);
     OpAmount := if zeroValue then None else AvaxAmount (CallValue call);
     CoinChange := None;
     Metadata := if Revert call then {[ "error" := MString (CallError call) ]} else ∅ |}.

(** The update of [destroyedAccounts] made next to an emitted operation:
    only for a non-zero value, a present entry and a successful call. *)
Definition adjust (zeroValue : bool) (opStatus : Status) (acct : string) (delta : Z)
    (destroyedAccounts : gmap string Z) : gmap string Z :=
  if zeroValue then destroyedAccounts
  else match destroyedAccounts !! acct with
       | Some bal =>
           if decide (opStatus = StatusSuccess)
           then <[acct := bal + delta]> destroyedAccounts
           else destroyedAccounts
       | None => destroyedAccounts
       end.

(** One iteration of the loop over the trace. *)
Definition traceCall (startIndex : Z)
    (st : list Operation * gmap string Z) (call : FlatCall)
    : result (list Operation * gmap string Z) :=
  let '(ops, destroyedAccounts) := st in
  let opStatus := if Revert call then StatusFailure else StatusSuccess in
  let zeroValue := bool_decide (CallValue call = 0) in
  let shouldAdd := negb (zeroValue && CallType (CallKind call)) in
  let from := AddressString (From call) in
  let to := AddressString (To call) in
  let '(ops, destroyedAccounts) :=
    if shouldAdd
    then (ops ++ [fromOp call (Z.of_nat (length ops) + startIndex)],
          adjust zeroValue opStatus from (- CallValue call) destroyedAccounts)
    else (ops, destroyedAccounts) in
  let selfDestruct := bool_decide (CallKind call = OpSelfDestruct) in
  let destroyedAccounts :=
    if selfDestruct then <[from := 0]> destroyedAccounts else destroyedAccounts in
  if selfDestruct && bool_decide (from = to) then Ok (ops, destroyedAccounts)
  else if bool_decide (String.length to = 0%nat) then Ok (ops, destroyedAccounts)
  else
    let destroyedAccounts :=
      if CreateType (CallKind call) then delete to destroyedAccounts
      else destroyedAccounts in
    if shouldAdd
    then i <- lastOpIndex ops ;;
         Ok (ops ++ [toOp call i],
             adjust zeroValue opStatus to (CallValue call) destroyedAccounts)
    else Ok (ops, destroyedAccounts).

Definition destructOp (acct : string) (val : Z) (index : Z) : Operation :=
  {| OperationIdentifier := Some index;
     RelatedOperations := [];
     OpType := OpDestruct;
     OpStatus := StatusSuccess;
     Account := acct;
     OpAmount := AvaxAmount (- val);
     CoinChange := None;
     Metadata := ∅ |}.

(** The loop over [destroyedAccounts], in the order the runtime visits it. *)
Fixpoint zeroOut (entries : list (string * Z)) (ops : list Operation)
    : result (list Operation) :=
  match entries with
  | [] => Ok ops
  | (acct, val) :: rest =>
      if bool_decide (val = 0) then zeroOut rest ops
      else if bool_decide (val < 0)
      then Fatal ("negative balance for suicided account " +:+ acct +:+ ": " +:+ pretty val)
      else i <- lastOpIndex ops ;;
           zeroOut rest (ops ++ [destructOp acct val (i + 1)])
  end.

Definition traceOps (rho : RangeOrder) (trace : list FlatCall) (startIndex : Z)
    : result (list Operation) :=
  match trace with
  | [] => Ok []
  | _ =>
      st <- foldM (traceCall startIndex) ([], ∅) trace ;;
      let '(ops, destroyedAccounts) := st in
      zeroOut (rangeEntries rho destroyedAccounts) ops
  end.

(** ** erc20Ops and erc721Ops *)

(** [types.Log] of go-ethereum. *)
Record Log := {
  LogAddress : Address;
  Topics : list Hash;
  Data : list Z
}.

(** [Account] of [mapper/helper.go] on a non-nil address. *)
Definition AccountOf (a : Address) : string := AddressString a.

(** [transferLog.Topics[i]]: out of range is a run-time panic. *)
Definition topic (transferLog : Log) (i : nat) : result Hash :=
  match Topics transferLog !! i with
  | Some h => Ok h
  | None => Panic
  end.

Definition tokenOp (index : Z) (related : list Z) (type : string)
    (amount : option Amount) (account : string)
    (metadata : gmap string MetaValue) : Operation :=
  {| OperationIdentifier := Some index;
     RelatedOperations := related;
     OpType := type;
     OpStatus := StatusSuccess;
     Account := account;
     OpAmount := amount;
     CoinChange := None;
     Metadata := metadata |}.

Definition erc20Ops (transferLog : Log) (currency : Currency) (opsLen : Z)
    : result (list Operation) :=
  t1 <- topic transferLog 1 ;;
  t2 <- topic transferLog 2 ;;
  let fromAddress := BytesToAddress t1 in
  let toAddress := BytesToAddress t2 in
  if bool_decide (fromAddress = zeroAddress)
  then Ok [tokenOp opsLen [] OpErc20Mint
             (Erc20Amount (Data transferLog) currency false) (AccountOf toAddress) ∅]
  else if bool_decide (toAddress = zeroAddress)
  then Ok [tokenOp opsLen [] OpErc20Burn
             (Erc20Amount (Data transferLog) currency true) (AccountOf fromAddress) ∅]
  else Ok [tokenOp opsLen [] OpErc20Transfer
             (Erc20Amount (Data transferLog) currency true) (AccountOf fromAddress) ∅;
           tokenOp (opsLen + 1) [opsLen] OpErc20Transfer
             (Erc20Amount (Data transferLog) currency false) (AccountOf toAddress) ∅].

Definition erc721Ops (transferLog : Log) (opsLen : Z) : result (list Operation) :=
  t1 <- topic transferLog 1 ;;
  t2 <- topic transferLog 2 ;;
  let fromAddress := BytesToAddress t1 in
  let toAddress := BytesToAddress t2 in
  t3 <- topic transferLog 3 ;;
  let metadata : gmap string MetaValue :=
    <[IndexTransferredMetadata := MString (HashString t3)]>
      (<[ContractAddressMetadata := MString (AddressString (LogAddress transferLog))]> ∅) in
  if bool_decide (fromAddress = zeroAddress)
  then Ok [tokenOp opsLen [] OpErc721Mint None (AccountOf toAddress) metadata]
  else if bool_decide (toAddress = zeroAddress)
  then Ok [tokenOp opsLen [] OpErc721Burn None (AccountOf fromAddress) metadata]
  else Ok [tokenOp opsLen [] OpErc721TransferSender None (AccountOf fromAddress) metadata;
           tokenOp (opsLen + 1) [opsLen] OpErc721TransferReceive None
             (AccountOf toAddress) metadata].

(** ** Transaction *)

Definition topicsInErc721Transfer : nat := 4.
Definition topicsInErc20Transfer : nat := 3.

(** [transferMethodHash]; [Hash.String] is the lower-case hex rendering of
    the 32 bytes, so the comparison of strings is the comparison of hashes. *)
Definition transferMethodHash : Hash :=
  0xddf252ad1be2c89b69c2b068fc378daa952ba7f163c4a11628f55a4df523b3ef.

(** [clientTypes.Client], as far as [Transaction] uses it:
    [GetContractInfo(address, isErc20)] gives symbol and decimals. *)
Definition Client := Address -> bool -> result (string * Z).

Record Receipt := { GasUsed : Z; Logs : list Log }.

(** What [Transaction] reads of the header, the transaction and the message. *)
Record TxInput := {
  Coinbase : Address;                  (* header.Coinbase *)
  MsgFrom : Address;                   (* msg.From *)
  MsgGasPrice : Z;                     (* msg.GasPrice *)
  TxHash : Hash;                       (* tx.Hash() *)
  TxGas : Z;                           (* tx.Gas() *)
  TxGasPrice : Z;                      (* tx.GasPrice() *)
  TxType : Z                           (* tx.Type() *)
}.

Record TransactionMetadata := {
  meta_gas : Z;
  meta_gas_price : Z;
  meta_receipt : Receipt;
  meta_trace : option Call;
  meta_type : Z
}.

Record RosettaTransaction := {
  TransactionHash : string;
  Operations : list Operation;
  TxMetadata : TransactionMetadata
}.

Definition feeOps (sender feeReceiver : Address) (gasUsed gasPrice : Z)
    : list Operation :=
  let txFee := gasUsed * gasPrice in
  [ {| OperationIdentifier := Some 0;
       RelatedOperations := [];
       OpType := OpFee;
       OpStatus := StatusSuccess;
       Account := AccountOf sender;
       OpAmount := AvaxAmount (- txFee);
       CoinChange := None;
       Metadata := ∅ |};
    {| OperationIdentifier := Some 1;
       RelatedOperations := [0];
       OpType := OpFee;
       OpStatus := StatusSuccess;
       Account := AccountOf feeReceiver;
       OpAmount := AvaxAmount txFee;
       CoinChange := None;
       Metadata := ∅ |} ].

(** The first two tests of the loop over [receipt.Logs]: a transfer log,
    and in standard mode a whitelisted token address. *)
Definition isTransferLog (log : Log) : bool :=
  match Topics log with
  | [] => false
  | t0 :: _ => bool_decide (t0 = transferMethodHash)
  end.

Definition whitelisted (isAnalyticsMode : bool) (standardModeWhiteList : list string)
    (log : Log) : bool :=
  isAnalyticsMode || EqualFoldContains standardModeWhiteList (AddressString (LogAddress log)).

(** One iteration of the loop over [receipt.Logs]. *)
Definition logOps (client : Client) (isAnalyticsMode : bool)
    (standardModeWhiteList : list string) (includeUnknownTokens : bool)
    (ops : list Operation) (log : Log) : result (list Operation) :=
  if negb (isTransferLog log) then Ok ops
  else if negb (whitelisted isAnalyticsMode standardModeWhiteList log) then Ok ops
  else if bool_decide (length (Topics log) = topicsInErc721Transfer) then
    info <- client (LogAddress log) false ;;
    if bool_decide (info.1 = UnknownERC721Symbol) && negb includeUnknownTokens
    then Ok ops
    else new <- erc721Ops log (Z.of_nat (length ops)) ;; Ok (ops ++ new)
  else if bool_decide (length (Topics log) = topicsInErc20Transfer) then
    info <- client (LogAddress log) true ;;
    if bool_decide (info.1 = UnknownERC20Symbol) && negb includeUnknownTokens
    then Ok ops
    else new <- erc20Ops log (ToCurrency info.1 info.2 (LogAddress log))
                  (Z.of_nat (length ops)) ;;
         Ok (ops ++ new)
  else Ok ops.

Definition Transaction (rho : RangeOrder) (input : TxInput) (receipt : Receipt)
    (trace : option Call) (flattenedTrace : list FlatCall)
    (client : Client) (isAnalyticsMode : bool)
    (standardModeWhiteList : list string) (includeUnknownTokens : bool)
    : result RosettaTransaction :=
  let fee := feeOps (MsgFrom input) (Coinbase input) (GasUsed receipt) (MsgGasPrice input) in
  let ops := [] ++ fee in
  tops <- traceOps rho flattenedTrace (Z.of_nat (length fee)) ;;
  let ops := ops ++ tops in
  ops <- foldM (logOps client isAnalyticsMode standardModeWhiteList includeUnknownTokens)
           ops (Logs receipt) ;;
  Ok {| TransactionHash := HashString (TxHash input);
        Operations := ops;
        TxMetadata := {| meta_gas := TxGas input;
                         meta_gas_price := TxGasPrice input;
                         meta_receipt := receipt;
                         meta_trace := trace;
                         meta_type := TxType input |} |}.

(** ** crossChainTransaction and createExportedOuts *)

Definition X2crate : Z := 1000000000.

(** [int64(x)] of a [uint64] [x]. *)
Definition to_int64 (x : Z) : Z := (x + 2 ^ 63) mod 2 ^ 64 - 2 ^ 63.

(** [uint32(i)] of an [int] [i]. *)
Definition to_uint32 (i : Z) : Z := i mod 2 ^ 32.

(** [evm.EVMOutput] and [evm.EVMInput] *)
Record EVMOutput := { OutAddress : Address; OutAmount : Z; OutAssetID : ID }.
Record EVMInput := { InAddress : Address; InAmount : Z; InAssetID : ID }.

(** [avax.TransferableInput]: [in.TxID], [in.AssetID] and [in.In.Amount()]. *)
Record TransferableInput := { InputTxID : ID; InputAssetID : ID; InputAmount : Z }.

(** [secp256k1fx.TransferOutput] *)
Record TransferOutput := { Amt : Z; Addrs : list ShortID }.

(** [avax.TransferableOutput]; [Out] is [None] when [out.Out] is not a
    non-nil [*secp256k1fx.TransferOutput]: the type assertion, or the call
    of [Amount] on the nil pointer, then panics. *)
Record TransferableOutput := { OutputAssetID : ID; Out : option TransferOutput }.

Record UnsignedImportTx := {
  ImportNetworkID : Z;
  ImportBlockchainID : ID;
  SourceChain : ID;
  ImportedInputs : list TransferableInput;
  Outs : list EVMOutput
}.

Record UnsignedExportTx := {
  ExportNetworkID : Z;
  ExportBlockchainID : ID;
  DestinationChain : ID;
  Ins : list EVMInput;
  ExportedOutputs : option (list TransferableOutput)   (* [None] is a nil slice *)
}.

Inductive UnsignedAtomicTx :=
| ImportTx (t : UnsignedImportTx)
| ExportTx (t : UnsignedExportTx)
| UnsupportedTx (typeName : string).

(** [evm.Tx]: [Sign(evm.Codec, nil)] serialises the transaction, which can
    fail, and so fixes the id that [ID()] returns. *)
Record Tx := {
  Unsigned : UnsignedAtomicTx;
  SignError : option Error;
  TxID : ID
}.

(** The metadata map of an atomic transaction, by its two keys
    [MetadataExportedOutputs] and [MetadataTxFee]. *)
Record CrossChainMetadata := {
  exported_outputs : option (list Operation);
  tx_fee : option Amount
}.

Definition exportedOutOp (addr : string) (amount : Z) (utxoID : UTXOID) : Operation :=
  {| OperationIdentifier := None;
     RelatedOperations := [];
     OpType := OpExport;
     OpStatus := StatusSuccess;
     Account := addr;
     OpAmount := Some {| Value := amount; AmountCurrency := AtomicAvaxCurrency |};
     CoinChange := Some (utxoID, CoinCreated);
     Metadata := ∅ |}.

(** The loop of [createExportedOuts], from output index [outIndex] on. *)
Fixpoint exportedOutsFrom (chainAlias hrp : string) (txID : ID)
    (exportedOuts : list TransferableOutput) (outIndex : Z)
    (operations : list Operation) (totalAmount : Z)
    : result (list Operation * Z) :=
  match exportedOuts with
  | [] => Ok (operations, totalAmount)
  | out :: rest =>
      match Out out with
      | None => Panic
      | Some transferOutput =>
          addr <- match Addrs transferOutput with
                  | [] => Ok ""
                  | a :: _ => addressFormat chainAlias hrp a
                  end ;;
          let utxoID := {| UTXO_TxID := txID; UTXO_OutputIndex := to_uint32 outIndex |} in
          exportedOutsFrom chainAlias hrp txID rest (outIndex + 1)
            (operations ++ [exportedOutOp addr (Amt transferOutput) utxoID])
            (totalAmount + Amt transferOutput)
      end
  end.

Definition createExportedOuts (networkIdentifier : string) (chainAlias : string)
    (txID : ID) (exportedOuts : list TransferableOutput)
    : result (list Operation * Z) :=
  hrp <- GetHRP networkIdentifier ;;
  exportedOutsFrom chainAlias hrp txID exportedOuts 0 [] 0.

Definition importOp (id : ID) (t : UnsignedImportTx) (txIDs : list string)
    (out : EVMOutput) (idx : Z) : Operation :=
  {| OperationIdentifier := Some idx;
     RelatedOperations := [];
     OpType := OpImport;
     OpStatus := StatusSuccess;
     Account := AddressString (OutAddress out);
     OpAmount := Some {| Value := OutAmount out * X2crate; AmountCurrency := AvaxCurrency |};
     CoinChange := None;
     Metadata :=
       <["asset_id" := MString (OutAssetID out)]>
       (<["meta" := MTxMetadata id]>
       (<["source_chain" := MString (SourceChain t)]>
       (<["network_id" := MNum (ImportNetworkID t)]>
       (<["blockchain_id" := MString (ImportBlockchainID t)]>
       (<["tx_ids" := MStrings txIDs]>
       (<["tx" := MString id]> ∅)))))) |}.

Definition exportOp (id : ID) (t : UnsignedExportTx) (inp : EVMInput) (idx : Z)
    : Operation :=
  {| OperationIdentifier := Some idx;
     RelatedOperations := [];
     OpType := OpExport;
     OpStatus := StatusSuccess;
     Account := AddressString (InAddress inp);
     OpAmount := Some {| Value := InAmount inp * - X2crate; AmountCurrency := AvaxCurrency |};
     CoinChange := None;
     Metadata :=
       <["asset_id" := MString (InAssetID inp)]>
       (<["meta" := MTxMetadata id]>
       (<["destination_chain" := MString (DestinationChain t)]>
       (<["network_id" := MNum (ExportNetworkID t)]>
       (<["blockchain_id" := MString (ExportBlockchainID t)]>
       (<["tx" := MString id]> ∅))))) |}.

(** The first loop of the import branch: the set of source transaction
    ids and the total of the input amounts. *)
Definition importInput (st : gmap string () * Z) (inp : TransferableInput)
    : gmap string () * Z :=
  (<[InputTxID inp := ()]> st.1, st.2 + to_int64 (InputAmount inp)).

(** What the loops of [crossChainTransaction] carry from one iteration to
    the next. *)
Record Loop := {
  st_ops : list Operation;
  st_idx : Z;
  st_exportedOuts : list Operation;
  st_metadataSet : bool;                  (* metadata[MetadataExportedOutputs] assigned *)
  st_totalInputAmount : Z;
  st_totalOutputAmount : Z
}.

Definition importOut (avaxAssetID : string) (id : ID) (t : UnsignedImportTx)
    (txIDs : list string) (st : Loop) (out : EVMOutput) : Loop :=
  if negb (bool_decide (OutAssetID out = avaxAssetID)) then st
  else {| st_ops := st_ops st ++ [importOp id t txIDs out (st_idx st)];
          st_idx := st_idx st + 1;
          st_exportedOuts := st_exportedOuts st;
          st_metadataSet := st_metadataSet st;
          st_totalInputAmount := st_totalInputAmount st;
          st_totalOutputAmount := st_totalOutputAmount st + OutAmount out |}.

Definition exportIn (networkIdentifier : string)
    (chainIDToAliasMapping : gmap ID string) (avaxAssetID : string)
    (id : ID) (t : UnsignedExportTx) (st : Loop) (inp : EVMInput) : result Loop :=
  if negb (bool_decide (InAssetID inp = avaxAssetID)) then Ok st
  else
    let ops' := st_ops st ++ [exportOp id t inp (st_idx st)] in
    let idx' := st_idx st + 1 in
    let totalIn := st_totalInputAmount st + InAmount inp in
    match ExportedOutputs t, chainIDToAliasMapping !! DestinationChain t with
    | Some outs, Some alias =>
        r <- createExportedOuts networkIdentifier alias id outs ;;
        Ok {| st_ops := ops';
              st_idx := idx';
              st_exportedOuts := st_exportedOuts st ++ r.1;
              st_metadataSet := true;
              st_totalInputAmount := totalIn;
              st_totalOutputAmount := st_totalOutputAmount st + r.2 |}
    | _, _ =>
        Ok {| st_ops := ops';
              st_idx := idx';
              st_exportedOuts := st_exportedOuts st;
              st_metadataSet := st_metadataSet st;
              st_totalInputAmount := totalIn;
              st_totalOutputAmount := st_totalOutputAmount st |}
    end.

(** The loop that gives the exported outs their operation identifiers. The
    slice stored in the metadata holds the same operations, so it sees them. *)
Definition indexExportedOuts (idx : Z) (exportedOuts : list Operation)
    : list Operation :=
  imap (fun i => setOperationIdentifier (idx + Z.of_nat i)) exportedOuts.

Definition crossChainTransaction (rho : RangeOrder) (networkIdentifier : string)
    (chainIDToAliasMapping : gmap ID string) (rawIdx : Z) (avaxAssetID : string)
    (tx : Tx) : result (list Operation * CrossChainMetadata) :=
  let init := {| st_ops := []; st_idx := rawIdx; st_exportedOuts := []; st_metadataSet := false;
                 st_totalInputAmount := 0; st_totalOutputAmount := 0 |} in
  match SignError tx with
  | Some err => Err err
  | None =>
      st <- match Unsigned tx with
            | ImportTx t =>
                let ins := fold_left importInput (ImportedInputs t) (∅, 0) in
                let txIDs := rangeKeys rho ins.1 in
                Ok (fold_left (importOut avaxAssetID (TxID tx) t txIDs) (Outs t)
                      {| st_ops := []; st_idx := rawIdx; st_exportedOuts := [];
                         st_metadataSet := false;
                         st_totalInputAmount := ins.2; st_totalOutputAmount := 0 |})
            | ExportTx t =>
                foldM (exportIn networkIdentifier chainIDToAliasMapping avaxAssetID
                         (TxID tx) t) init (Ins t)
            | UnsupportedTx typeName => Err ("unsupported transaction: " +:+ typeName)
            end ;;
      let exported := indexExportedOuts (st_idx st) (st_exportedOuts st) in
      let txFeeAtomicAvax := st_totalInputAmount st - st_totalOutputAmount st in
      Ok (st_ops st,
          {| exported_outputs := if st_metadataSet st then Some exported else None;
             tx_fee := AtomicAvaxAmount txFeeAtomicAvax |})
  end.

End Mapper.

(** ** A concrete environment *)

(** Modelled from the spec: [CallType] and [CreateType] of the mapper's
    helpers, which are not part of this file. The spec (4.2) separates the
    value-transfer call kinds from the create and the self-destruct kinds;
    the kinds are those of the EVM. *)
Definition stdCallType (t : string) : bool :=
  bool_decide (t ∈ ["CALL"; "CALLCODE"; "DELEGATECALL"; "STATICCALL"]).

Definition stdCreateType (t : string) : bool :=
  bool_decide (t ∈ ["CREATE"; "CREATE2"]).

(** Big-endian value of a byte string. *)
Definition bytesToZ (data : list Z) : Z :=
  fold_left (fun acc b => acc * 256 + b) data 0.

(** Modelled from the spec: an environment for the concrete computations.
    The call kinds are those above; the two native currencies differ by
    the scale factor [10^9] (spec 3); an address renders as a non-empty
    string that determines it. The names of the operation types, of the
    metadata keys and of the unknown symbols stand for the constants of
    the mapper and of the client, on whose values no result depends. *)
Definition stdEnv : Env := {|
  CallType := stdCallType;
  CreateType := stdCreateType;
  EqualFoldContains := fun l s => bool_decide (s ∈ l);
  OpFee := "FEE";
  OpSelfDestruct := "SELFDESTRUCT";
  OpDestruct := "DESTRUCT";
  OpImport := "IMPORT";
  OpExport := "EXPORT";
  OpErc20Transfer := "ERC20_TRANSFER";
  OpErc20Mint := "ERC20_MINT";
  OpErc20Burn := "ERC20_BURN";
  OpErc721TransferSender := "ERC721_SENDER";
  OpErc721TransferReceive := "ERC721_RECEIVE";
  OpErc721Mint := "ERC721_MINT";
  OpErc721Burn := "ERC721_BURN";
  ContractAddressMetadata := "contractAddress";
  IndexTransferredMetadata := "indexTransferred";
  UnknownERC20Symbol := "ERC20_UNKNOWN";
  UnknownERC721Symbol := "ERC721_UNKNOWN";
  AvaxCurrency := {| Symbol := "AVAX"; Decimals := 18 |};
  AtomicAvaxCurrency := {| Symbol := "AVAX"; Decimals := 9 |};
  ToCurrency := fun symbol decimals _ => {| Symbol := symbol; Decimals := decimals |};
  Erc20Amount := fun data currency sender =>
    Some {| Value := if sender then - bytesToZ data else bytesToZ data;
            AmountCurrency := currency |};
  AddressString := fun a => "0x" +:+ pretty a;
  HashString := fun h => "0x" +:+ pretty h;
  GetHRP := fun network => Ok network;
  addressFormat := fun chainAlias hrp addr => Ok (chainAlias +:+ "-" +:+ hrp +:+ "1" +:+ addr)
|}.

(** What the properties below use of an environment: self-destruct is not
    a value-transfer call kind, and an address renders as a non-empty
    string that determines it (go-ethereum renders 20 bytes as 42
    characters). *)
Class EnvFacts (E : Env) : Prop := {
  CallType_OpSelfDestruct : CallType OpSelfDestruct = false;
  AddressString_inj : forall a b : Address, AddressString a = AddressString b -> a = b;
  AddressString_nonempty : forall a : Address, String.length (AddressString a) <> 0%nat
}.

Definition mkCall (kind : string) (from to : Address) (value : Z) : FlatCall :=
  {| CallKind := kind; From := from; To := to; CallValue := value;
     Revert := false; CallError := "" |}.

(** The operations emitted for one call, given the index of the first. *)
Definition callOps `{E : Env} (call : FlatCall) (index : Z) : list Operation :=
  let zeroValue := bool_decide (CallValue call = 0) in
  let from := AddressString (From call) in
  let to := AddressString (To call) in
  if zeroValue && CallType (CallKind call) then []
  else if bool_decide (CallKind call = OpSelfDestruct) && bool_decide (from = to)
  then [fromOp call index]
  else if bool_decide (String.length to = 0%nat) then [fromOp call index]
  else [fromOp call index; toOp call index].

(** The operations of a list are numbered from [start] on. *)
Definition indexedFrom (start : Z) (ops : list Operation) : Prop :=
  forall (k : nat) op, ops !! k = Some op ->
    OperationIdentifier op = Some (start + Z.of_nat k).

(** [credit] is the receive half of the movement whose send half is
    [debit]: it has the next index and lists exactly the index of [debit]. *)
Definition pairedWith (debit credit : Operation) : Prop :=
  exists i, OperationIdentifier debit = Some i
            /\ RelatedOperations debit = []
            /\ OperationIdentifier credit = Some (i + 1)
            /\ RelatedOperations credit = [i].

(** A sequence made of operations without related operations and of
    adjacent debit/credit pairs. *)
Inductive wellLinked : list Operation -> Prop :=
| wellLinked_nil : wellLinked []
| wellLinked_single op rest :
    RelatedOperations op = [] -> wellLinked rest -> wellLinked (op :: rest)
| wellLinked_pair debit credit rest :
    pairedWith debit credit -> wellLinked rest ->
    wellLinked (debit :: credit :: rest).

(** What an iteration of the loop of [traceOps] does to
    [destroyedAccounts] apart from the updates made with an emitted
    operation: the entry of a self-destructed account is reset, the entry
    of a created account is removed. *)
Definition ledgerOnly `{E : Env} (call : FlatCall) (destroyedAccounts : gmap string Z)
    : gmap string Z :=
  let from := AddressString (From call) in
  let to := AddressString (To call) in
  let selfDestruct := bool_decide (CallKind call = OpSelfDestruct) in
  let destroyedAccounts :=
    if selfDestruct then <[from := 0]> destroyedAccounts else destroyedAccounts in
  if selfDestruct && bool_decide (from = to) then destroyedAccounts
  else if bool_decide (String.length to = 0%nat) then destroyedAccounts
  else if CreateType (CallKind call) then delete to destroyedAccounts
  else destroyedAccounts.

(** An operation of a value-transfer call kind moves a non-zero amount. *)
Definition movesValue `{E : Env} (op : Operation) : Prop :=
  CallType (OpType op) = true ->
  exists a, OpAmount op = Some a /\ Value a <> 0.

(** A log for which [Transaction] looks the contract up: a transfer log
    that passes the whitelist test and has four or three topics. *)
Definition qualifying `{E : Env} (isAnalyticsMode : bool)
    (standardModeWhiteList : list string) (log : Log) : bool :=
  isTransferLog log && whitelisted isAnalyticsMode standardModeWhiteList log
  && (bool_decide (length (Topics log) = topicsInErc721Transfer)
      || bool_decide (length (Topics log) = topicsInErc20Transfer)).

(** The lookup made for it: as an ERC20 contract for three topics, as an
    ERC721 contract for four. *)
Definition contractLookup (client : Client) (log : Log) : result (string * Z) :=
  client (LogAddress log) (bool_decide (length (Topics log) = topicsInErc20Transfer)).

Definition sumZ (l : list Z) : Z := foldr Z.add 0 l.

(** The inputs, outputs and exported outputs of the native asset. *)
Definition nativeIns (avaxAssetID : string) (ins : list EVMInput) : list EVMInput :=
  filter (fun inp => InAssetID inp = avaxAssetID) ins.

Definition nativeOuts (avaxAssetID : string) (outs : list EVMOutput) : list EVMOutput :=
  filter (fun out => OutAssetID out = avaxAssetID) outs.

(** The fee as the specification words it: the native-asset inputs minus
    the native-asset outputs, everything of another asset left out. *)
Definition nativeFee (avaxAssetID : string) (u : UnsignedAtomicTx) : Z :=
  match u with
  | ImportTx t =>
      sumZ (InputAmount <$> filter (fun inp => InputAssetID inp = avaxAssetID)
                              (ImportedInputs t))
      - sumZ (OutAmount <$> nativeOuts avaxAssetID (Outs t))
  | ExportTx t =>
      sumZ (InAmount <$> nativeIns avaxAssetID (Ins t))
      - sumZ (Amt <$> omap Out (filter (fun out => OutputAssetID out = avaxAssetID)
                                  (default [] (ExportedOutputs t))))
  | UnsupportedTx _ => 0
  end.

(** The exported outputs that [crossChainTransaction] resolves: those of a
    transaction that declares them for a chain of the alias lookup. *)
Definition resolvedOutputs (chainIDToAliasMapping : gmap ID string)
    (t : UnsignedExportTx) : option (string * list TransferableOutput) :=
  match ExportedOutputs t, chainIDToAliasMapping !! DestinationChain t with
  | Some outs, Some alias => Some (alias, outs)
  | _, _ => None
  end.

(** The fee of the code: every imported input counts, of whatever asset,
    and so does every resolved exported output. *)
Definition settledFee (chainIDToAliasMapping : gmap ID string) (avaxAssetID : string)
    (u : UnsignedAtomicTx) : Z :=
  match u with
  | ImportTx t =>
      sumZ (InputAmount <$> ImportedInputs t)
      - sumZ (OutAmount <$> nativeOuts avaxAssetID (Outs t))
  | ExportTx t =>
      sumZ (InAmount <$> nativeIns avaxAssetID (Ins t))
      - match resolvedOutputs chainIDToAliasMapping t with
        | Some (_, outs) => sumZ (Amt <$> omap Out outs)
        | None => 0
        end
  | UnsupportedTx _ => 0
  end.

(** The transactions for which [settledFee] is stated: imported amounts
    below [2^63], and exported outputs resolved for one native-asset input. *)
Definition plainAmounts (chainIDToAliasMapping : gmap ID string) (avaxAssetID : string)
    (u : UnsignedAtomicTx) : Prop :=
  match u with
  | ImportTx t => Forall (fun inp => 0 <= InputAmount inp < 2 ^ 63) (ImportedInputs t)
  | ExportTx t =>
      length (nativeIns avaxAssetID (Ins t)) = 1%nat
      \/ resolvedOutputs chainIDToAliasMapping t = None
  | UnsupportedTx _ => True
  end.

(** The [tx_ids] entry of the metadata of an operation. *)
Definition tx_ids (op : Operation) : option MetaValue := Metadata op !! "tx_ids".

(** ** Concrete inputs *)

Definition callAB : FlatCall := mkCall "CALL" 1 2 100.
Definition selfDestructBA : FlatCall := mkCall "SELFDESTRUCT" 2 1 0.
Definition zeroCallAB : FlatCall := mkCall "CALL" 1 2 0.

Definition exampleTrace : list FlatCall := [callAB; zeroCallAB; selfDestructBA].

Definition erc20Log : Log :=
  {| LogAddress := 7; Topics := [transferMethodHash; 1; 2]; Data := [1; 0] |}.

Definition erc721Log : Log :=
  {| LogAddress := 8; Topics := [transferMethodHash; 0; 2; 5]; Data := [] |}.

Definition exampleReceipt : Receipt :=
  {| GasUsed := 21000; Logs := [erc20Log; erc721Log] |}.

Definition exampleInput : TxInput :=
  {| Coinbase := 9; MsgFrom := 1; MsgGasPrice := 25; TxHash := 77;
     TxGas := 21000; TxGasPrice := 25; TxType := 0 |}.

Definition exampleClient : Client :=
  fun _ isErc20 => if isErc20 then Ok ("TOK", 18) else Ok ("NFT", 0).

(** A client that knows the contract 7 and fails on every other. *)
Definition failingClient : Client :=
  fun a _ => if bool_decide (a = 7) then Ok ("TOK", 18) else Err "contract info unavailable".

Definition exampleAliases : gmap ID string := {[ "chainX" := "X" ]}.

(** An import of one input of another asset, without outputs. *)
Definition importOfOtherAsset : Tx :=
  {| Unsigned := ImportTx
       {| ImportNetworkID := 1; ImportBlockchainID := "chainC"; SourceChain := "chainX";
          ImportedInputs := [ {| InputTxID := "src"; InputAssetID := "OTHER";
                                 InputAmount := 5 |} ];
          Outs := [] |};
     SignError := None; TxID := "tx1" |}.

(** An import of two inputs with different source transactions. *)
Definition importOfTwoSources : Tx :=
  {| Unsigned := ImportTx
       {| ImportNetworkID := 1; ImportBlockchainID := "chainC"; SourceChain := "chainX";
          ImportedInputs := [ {| InputTxID := "a"; InputAssetID := "AVAX"; InputAmount := 60 |};
                              {| InputTxID := "b"; InputAssetID := "AVAX"; InputAmount := 50 |};
                              {| InputTxID := "a"; InputAssetID := "AVAX"; InputAmount := 1 |} ];
          Outs := [ {| OutAddress := 3; OutAmount := 100; OutAssetID := "AVAX" |} ] |};
     SignError := None; TxID := "tx2" |}.

(** An import of one input of amount [2^63]. *)
Definition importOfLargeAmount : Tx :=
  {| Unsigned := ImportTx
       {| ImportNetworkID := 1; ImportBlockchainID := "chainC"; SourceChain := "chainX";
          ImportedInputs := [ {| InputTxID := "src"; InputAssetID := "AVAX";
                                 InputAmount := 2 ^ 63 |} ];
          Outs := [] |};
     SignError := None; TxID := "tx3" |}.

Definition exportedOutput : TransferableOutput :=
  {| OutputAssetID := "AVAX"; Out := Some {| Amt := 900; Addrs := ["addr"] |} |}.

(** An export of one native-asset input and of an input of another asset,
    with one exported output. *)
Definition exportOfOneInput : Tx :=
  {| Unsigned := ExportTx
       {| ExportNetworkID := 1; ExportBlockchainID := "chainC"; DestinationChain := "chainX";
          Ins := [ {| InAddress := 4; InAmount := 1000; InAssetID := "AVAX" |};
                   {| InAddress := 5; InAmount := 7; InAssetID := "OTHER" |} ];
          ExportedOutputs := Some [exportedOutput] |};
     SignError := None; TxID := "tx4" |}.

(** An export of two native-asset inputs with one exported output. *)
Definition exportOfTwoInputs : Tx :=
  {| Unsigned := ExportTx
       {| ExportNetworkID := 1; ExportBlockchainID := "chainC"; DestinationChain := "chainX";
          Ins := [ {| InAddress := 4; InAmount := 600; InAssetID := "AVAX" |};
                   {| InAddress := 5; InAmount := 400; InAssetID := "AVAX" |} ];
          ExportedOutputs := Some [exportedOutput] |};
     SignError := None; TxID := "tx5" |}.

(** ** The output of [traceOps], in full *)

(** The operations that the loop over the trace emits. *)
Definition traceCallOps `{E : Env} (startIndex : Z) (trace : list FlatCall)
    : list Operation :=
  fold_left (fun ops call => ops ++ callOps call (Z.of_nat (length ops) + startIndex))
    trace [].

(** [destroyedAccounts] when the loop over the trace ends. *)
Definition finalLedger `{E : Env} (startIndex : Z) (trace : list FlatCall)
    : gmap string Z :=
  match foldM (traceCall startIndex) ([], ∅) trace with
  | Ok st => st.2
  | _ => ∅
  end.

(** While no operation is emitted, every entry of [destroyedAccounts] is zero. *)
Definition settled (st : list Operation * gmap string Z) : Prop :=
  st.1 = [] -> forall k v, st.2 !! k = Some v -> v = 0.

(** One account-destruction operation for each entry with a balance other
    than zero, numbered from [index] on. *)
Definition liquidations `{E : Env} (entries : list (string * Z)) (index : Z)
    : list Operation :=
  imap (fun i e => destructOp e.1 e.2 (index + Z.of_nat i))
    (filter (fun e => e.2 <> 0) entries).

(** The result of a function applied to the value of a result. *)
Definition resultMap {A B} (f : A -> B) (r : result A) : result B :=
  match r with
  | Ok a => Ok (f a)
  | Err e => Err e
  | Fatal msg => Fatal msg
  | Panic => Panic
  end.

(** A receipt with the logs that [Transaction] looks up, and no other. *)
Definition qualifyingLogs `{E : Env} (isAnalyticsMode : bool)
    (standardModeWhiteList : list string) (receipt : Receipt) : Receipt :=
  {| GasUsed := GasUsed receipt;
     Logs := filter (fun log => qualifying isAnalyticsMode standardModeWhiteList log = true)
               (Logs receipt) |}.

(** ** CrossChainTransactions *)

(** What [CrossChainTransactions] reads of a block: [block.ExtData()] and
    [block.Time()]. *)
Record Block := { ExtData : list Z; BlockTime : Z }.

(** The transaction record of an atomic transaction. *)
Record AtomicTransaction := {
  AtomicHash : string;
  AtomicOperations : list Operation;
  AtomicMetadata : CrossChainMetadata
}.

(** One iteration of the loop over the atomic transactions. *)
Definition crossChainStep `{E : Env} (rho : RangeOrder) (networkIdentifier : string)
    (chainIDToAliasMapping : gmap ID string) (avaxAssetID : string)
    (transactions : list AtomicTransaction) (tx : Tx)
    : result (list AtomicTransaction) :=
  r <- crossChainTransaction rho networkIdentifier chainIDToAliasMapping 0
         avaxAssetID tx ;;
  Ok (transactions ++ [ {| AtomicHash := TxID tx;
                           AtomicOperations := r.1;
                           AtomicMetadata := r.2 |} ]).

(** [ExtractAtomicTxs] is [evm.ExtractAtomicTxs] with the codec of the
    EVM: it decodes the payload, as a batch of transactions or as a single
    one, and can fail. *)
Definition CrossChainTransactions `{E : Env}
    (ExtractAtomicTxs : list Z -> bool -> result (list Tx))
    (rho : RangeOrder) (networkIdentifier : string)
    (chainIDToAliasMapping : gmap ID string) (avaxAssetID : string)
    (block : Block) (ap5Activation : Z) : result (list AtomicTransaction) :=
  let extra := ExtData block in
  if bool_decide (length extra = 0%nat) then Ok []
  else
    atomicTxs <- ExtractAtomicTxs extra (bool_decide (ap5Activation <= BlockTime block)) ;;
    foldM (crossChainStep rho networkIdentifier chainIDToAliasMapping avaxAssetID)
      [] atomicTxs.

(** The record of an atomic transaction: its id, and the operations and
    the metadata of [crossChainTransaction] from index 0. *)
Definition recordOf `{E : Env} (rho : RangeOrder) (networkIdentifier : string)
    (chainIDToAliasMapping : gmap ID string) (avaxAssetID : string)
    (tx : Tx) (transaction : AtomicTransaction) : Prop :=
  crossChainTransaction rho networkIdentifier chainIDToAliasMapping 0 avaxAssetID tx
  = Ok (AtomicOperations transaction, AtomicMetadata transaction)
  /\ AtomicHash transaction = TxID tx.

(** ** MempoolTransactionsIDs *)

(** [strings.Split(s, sep)] for a separator [sep] of one character. *)
Fixpoint Split (s : string) (sep : Ascii.ascii) : list string :=
  match s with
  | EmptyString => [EmptyString]
  | String c s' =>
      if bool_decide (c = sep) then EmptyString :: Split s' sep
      else match Split s' sep with
           | chunk :: chunks => String c chunk :: chunks
           | [] => [String c EmptyString]
           end
  end.

(** [strings.Join(chunks, sep)] for such a separator. *)
Fixpoint Join (chunks : list string) (sep : Ascii.ascii) : string :=
  match chunks with
  | [] => EmptyString
  | chunk :: rest =>
      match rest with
      | [] => chunk
      | _ => chunk +:+ String sep (Join rest sep)
      end
  end.

Definition colon : Ascii.ascii := Ascii.ascii_of_nat 58.

(** One iteration of the inner loop: the hash is [chunks[0]]. *)
Definition mempoolID (ids : list string) (tx : string) : result (list string) :=
  match Split tx colon with
  | chunk :: _ => Ok (ids ++ [chunk])
  | [] => Panic
  end.

(** [accountMap] is given by the transactions that the two nested [range]
    loops visit: for each value of [accountMap], its values, in the order
    of the visit. The result is the list of the hashes of the transaction
    identifiers. *)
Definition MempoolTransactionsIDs (accountMap : list (list string))
    : result (list string) :=
  foldM (fun ids txNonceMap => foldM mempoolID ids txNonceMap) [] accountMap.

(** The part of a string before the first separator. *)
Fixpoint upTo (sep : Ascii.ascii) (s : string) : string :=
  match s with
  | EmptyString => EmptyString
  | String c s' => if bool_decide (c = sep) then EmptyString else String c (upTo sep s')
  end.

(** ** More concrete inputs *)

(** A self-destruct of B, then a call that credits B. *)
Definition liquidationTrace : list FlatCall :=
  [mkCall "SELFDESTRUCT" 2 1 0; mkCall "CALL" 1 2 100].

(** A self-destruct of B, then a call that debits B. *)
Definition negativeTrace : list FlatCall :=
  [mkCall "SELFDESTRUCT" 2 1 0; mkCall "CALL" 2 3 5].

Definition revertedCall : FlatCall :=
  {| CallKind := "CALL"; From := 1; To := 2; CallValue := 100;
     Revert := true; CallError := "out of gas" |}.

Definition shortLog : Log :=
  {| LogAddress := 7; Topics := [transferMethodHash; 1]; Data := [] |}.

Definition unsupportedTx : Tx :=
  {| Unsigned := UnsupportedTx "*evm.TestTx"; SignError := None; TxID := "tx6" |}.

Definition exampleBlock : Block := {| ExtData := [1; 2; 3]; BlockTime := 10 |}.

Definition extractTwo : list Z -> bool -> result (list Tx) :=
  fun _ _ => Ok [importOfTwoSources; exportOfOneInput].

Definition extractUnsupported : list Z -> bool -> result (list Tx) :=
  fun _ _ => Ok [importOfTwoSources; unsupportedTx; exportOfOneInput].

(** ** Results about the state threading *)

Lemma bind_Ok {A B} (r : result A) (k : A -> result B) (b : B) :
  bind r k = Ok b -> exists a, r = Ok a /\ k a = Ok b.
Proof. destruct r; simpl; intros H; try discriminate. eauto. Qed.

Lemma foldM_app {A S} (f : S -> A -> result S) (s : S) (l1 l2 : list A) :
  foldM f s (l1 ++ l2) = bind (foldM f s l1) (fun s' => foldM f s' l2).
Proof.
  revert s. induction l1 as [|a l1 IH]; intros s; simpl; [done|].
  destruct (f s a); simpl; auto.
Qed.

Lemma foldM_invariant {A S} (P : S -> Prop) (f : S -> A -> result S) :
  (forall s a s', P s -> f s a = Ok s' -> P s') ->
  forall l s s', P s -> foldM f s l = Ok s' -> P s'.
Proof.
  intros Hstep. induction l as [|a l IH]; simpl; intros s s' Hs H.
  - by inversion H; subst.
  - apply bind_Ok in H as (s1 & H1 & H2). eauto.
Qed.

Lemma indexedFrom_nil start : indexedFrom start [].
Proof. intros k op H. by rewrite lookup_nil in H. Qed.

Lemma indexedFrom_app start (l1 l2 : list Operation) :
  indexedFrom start l1 ->
  indexedFrom (start + Z.of_nat (length l1)) l2 ->
  indexedFrom start (l1 ++ l2).
Proof.
  intros H1 H2 k op Hk.
  apply lookup_app_Some in Hk as [Hk | [Hle Hk]].
  - by apply H1.
  - rewrite (H2 _ _ Hk). f_equal. lia.
Qed.

Lemma indexedFrom_map start (ops : list Operation) :
  indexedFrom start ops ->
  OperationIdentifier <$> ops
  = (fun k : nat => Some (start + Z.of_nat k)) <$> seq 0 (length ops).
Proof.
  intros H. apply list_eq. intros k.
  rewrite !list_lookup_fmap.
  destruct (ops !! k) as [op|] eqn:Hk; simpl.
  - rewrite (lookup_seq_lt _ _ _ (lookup_lt_Some _ _ _ Hk)). simpl.
    by rewrite (H _ _ Hk).
  - rewrite lookup_seq_ge; [done | by apply lookup_ge_None].
Qed.

Lemma lastOpIndex_snoc (ops : list Operation) op i :
  OperationIdentifier op = Some i -> lastOpIndex (ops ++ [op]) = Ok i.
Proof. intros H. unfold lastOpIndex. by rewrite last_snoc, H. Qed.

Lemma lastOpIndex_indexed start (ops : list Operation) i :
  indexedFrom start ops -> lastOpIndex ops = Ok i ->
  i + 1 = start + Z.of_nat (length ops).
Proof.
  intros Hidx. unfold lastOpIndex.
  destruct (last ops) as [op|] eqn:Hl; [|done].
  rewrite last_lookup in Hl. specialize (Hidx _ _ Hl).
  rewrite Hidx. intros [= <-].
  assert (length ops <> 0)%nat.
  { intros H0. apply lookup_lt_Some in Hl. lia. }
  lia.
Qed.

Section Properties.
Context `{E : Env}.

(** ** traceOps *)

Lemma lastOpIndex_fromOp (ops : list Operation) call i :
  lastOpIndex (ops ++ [fromOp call i]) = Ok i.
Proof. by apply lastOpIndex_snoc. Qed.

Lemma traceCall_callOps startIndex (ops : list Operation) d call :
  exists d',
    traceCall startIndex (ops, d) call
    = Ok (ops ++ callOps call (Z.of_nat (length ops) + startIndex), d').
Proof.
  unfold traceCall, callOps.
  destruct (bool_decide (CallValue call = 0) && CallType (CallKind call)); simpl.
  - repeat case_match; rewrite ?app_nil_r; eauto.
  - repeat case_match; simpl;
      rewrite ?lastOpIndex_fromOp; simpl;
      rewrite <- ?app_assoc; simpl; eauto.
Qed.

Lemma callOps_indexed call index : indexedFrom index (callOps call index).
Proof.
  unfold callOps. intros k op.
  repeat case_match; intros Hk;
    repeat (destruct k as [|k]; simpl in Hk; simplify_eq; simpl;
            try (f_equal; lia)).
Qed.

Lemma traceCall_indexed startIndex ops d call st :
  traceCall startIndex (ops, d) call = Ok st ->
  indexedFrom startIndex ops -> indexedFrom startIndex st.1.
Proof.
  destruct (traceCall_callOps startIndex ops d call) as [d' ->].
  intros [= <-] H. simpl. apply indexedFrom_app; [done|].
  replace (startIndex + Z.of_nat (length ops))
    with (Z.of_nat (length ops) + startIndex) by lia.
  apply callOps_indexed.
Qed.

Lemma zeroOut_indexed startIndex entries : forall ops out,
  zeroOut entries ops = Ok out ->
  indexedFrom startIndex ops -> indexedFrom startIndex out.
Proof.
  induction entries as [|[acct val] rest IH]; simpl; intros ops out H Hidx.
  - by inversion H; subst.
  - repeat case_match; try done; [by eapply IH|].
    apply bind_Ok in H as (i & Hi & H).
    eapply IH; [exact H|].
    apply indexedFrom_app; [done|].
    intros [|k] op Hk; simpl in Hk; simplify_eq; simpl.
    f_equal. apply (lastOpIndex_indexed startIndex) in Hi; [lia | done].
Qed.

Lemma traceOps_indexed rho trace startIndex out :
  traceOps rho trace startIndex = Ok out -> indexedFrom startIndex out.
Proof.
  unfold traceOps. destruct trace as [|c trace].
  - intros [= <-]. apply indexedFrom_nil.
  - intros H. apply bind_Ok in H as ([ops d] & Hfold & H).
    eapply zeroOut_indexed; [exact H|].
    change ops with ((ops, d).1).
    eapply (foldM_invariant (fun st => indexedFrom startIndex st.1));
      [| | exact Hfold]; [|apply indexedFrom_nil].
    intros [o1 d1] a s' Hs Hstep. by eapply traceCall_indexed.
Qed.

(** ** Token transfers and the assembly of a transaction *)

Lemma erc20Ops_indexed log currency opsLen out :
  erc20Ops log currency opsLen = Ok out -> indexedFrom opsLen out.
Proof.
  unfold erc20Ops. intros H.
  apply bind_Ok in H as (t1 & _ & H). apply bind_Ok in H as (t2 & _ & H).
  repeat case_match; simplify_eq;
    intros k op Hk;
    repeat (destruct k as [|k]; simpl in Hk; simplify_eq; simpl;
            try (f_equal; lia)).
Qed.

Lemma erc721Ops_indexed log opsLen out :
  erc721Ops log opsLen = Ok out -> indexedFrom opsLen out.
Proof.
  unfold erc721Ops. intros H.
  apply bind_Ok in H as (t1 & _ & H). apply bind_Ok in H as (t2 & _ & H).
  apply bind_Ok in H as (t3 & _ & H).
  repeat case_match; simplify_eq;
    intros k op Hk;
    repeat (destruct k as [|k]; simpl in Hk; simplify_eq; simpl;
            try (f_equal; lia)).
Qed.

Lemma logOps_extends client mode whiteList unknown ops log ops' :
  logOps client mode whiteList unknown ops log = Ok ops' ->
  exists new, ops' = ops ++ new /\ indexedFrom (Z.of_nat (length ops)) new.
Proof.
  unfold logOps. intros H.
  repeat case_match; simplify_eq;
    try (exists []; split; [by rewrite app_nil_r | apply indexedFrom_nil]);
    apply bind_Ok in H as (info & _ & H);
    repeat case_match; simplify_eq;
    try (exists []; split; [by rewrite app_nil_r | apply indexedFrom_nil]);
    apply bind_Ok in H as (new & Hnew & H); simplify_eq;
    exists new; (split; [done|]);
    eauto using erc20Ops_indexed, erc721Ops_indexed.
Qed.

Lemma Transaction_Ok rho input receipt trace flattenedTrace client mode whiteList unknown tx :
  Transaction rho input receipt trace flattenedTrace client mode whiteList unknown = Ok tx ->
  exists rest,
    Operations tx
    = feeOps (MsgFrom input) (Coinbase input) (GasUsed receipt) (MsgGasPrice input) ++ rest
    /\ indexedFrom 0 (Operations tx).
Proof.
  unfold Transaction. intros H.
  apply bind_Ok in H as (tops & Htrace & H).
  apply bind_Ok in H as (ops & Hlogs & H). simplify_eq. simpl.
  set (fee := feeOps _ _ _ _) in *.
  eapply (foldM_invariant
            (fun ops => exists rest, ops = fee ++ rest /\ indexedFrom 0 ops));
    [| | exact Hlogs].
  - intros o log o' (rest & -> & Hidx) Hstep.
    apply logOps_extends in Hstep as (new & -> & Hnew).
    exists (rest ++ new). split; [by rewrite app_assoc|].
    by apply indexedFrom_app.
  - exists tops. split; [done|].
    apply indexedFrom_app.
    + intros k op Hk.
      repeat (destruct k as [|k]; simpl in Hk; simplify_eq; simpl; try done).
    + by apply traceOps_indexed in Htrace.
Qed.

(** C1. The operation indices of a transaction that [Transaction] assembles
    are exactly 0, 1, ..., n-1 in this order, over the fee operations, the
    trace operations and the token operations, whatever the receipt logs
    and the flattened trace. *)
Theorem Transaction_indices_gap_free
    rho input receipt trace flattenedTrace client mode whiteList unknown tx :
  Transaction rho input receipt trace flattenedTrace client mode whiteList unknown = Ok tx ->
  OperationIdentifier <$> Operations tx
  = (fun k : nat => Some (Z.of_nat k)) <$> seq 0 (length (Operations tx)).
Proof.
  intros H. apply Transaction_Ok in H as (rest & _ & Hidx).
  by rewrite (indexedFrom_map _ _ Hidx).
Qed.

(** C2. Fee synthesis emits exactly two success operations: at index 0 a
    debit of [gasUsed * gasPrice] from the sender with no related
    operation, at index 1 a credit of the same fee to the fee receiver with
    related operation 0; they open the operations of every assembled
    transaction; with gas used 21000 and gas price 25 the amounts are
    -525000 and 525000. *)
Theorem fee_operations sender feeReceiver gasUsed gasPrice :
  (exists debit credit,
     feeOps sender feeReceiver gasUsed gasPrice = [debit; credit]
     /\ OperationIdentifier debit = Some 0
     /\ OperationIdentifier credit = Some 1
     /\ OpStatus debit = StatusSuccess /\ OpStatus credit = StatusSuccess
     /\ OpType debit = OpFee /\ OpType credit = OpFee
     /\ Account debit = AddressString sender
     /\ Account credit = AddressString feeReceiver
     /\ Value <$> OpAmount debit = Some (- (gasUsed * gasPrice))
     /\ Value <$> OpAmount credit = Some (gasUsed * gasPrice)
     /\ RelatedOperations debit = []
     /\ RelatedOperations credit = [0])
  /\ (forall rho input receipt trace flattenedTrace client mode whiteList unknown tx,
        Transaction rho input receipt trace flattenedTrace client mode whiteList unknown = Ok tx ->
        take 2 (Operations tx)
        = feeOps (MsgFrom input) (Coinbase input) (GasUsed receipt) (MsgGasPrice input))
  /\ (fun op => Value <$> OpAmount op) <$> feeOps sender feeReceiver 21000 25
     = [Some (-525000); Some 525000].
Proof.
  split; [|split].
  - eexists _, _. split; [reflexivity|]. simpl. tauto.
  - intros * H. apply Transaction_Ok in H as (rest & -> & _). done.
  - done.
Qed.

(** ** Linking of credits to debits *)

Lemma wellLinked_app (l1 l2 : list Operation) :
  wellLinked l1 -> wellLinked l2 -> wellLinked (l1 ++ l2).
Proof.
  intros H1 H2. induction H1; simpl; [done | |].
  - by apply wellLinked_single.
  - by apply wellLinked_pair.
Qed.

Lemma pairedWith_fromOp_toOp call i : pairedWith (fromOp call i) (toOp call i).
Proof. exists i. done. Qed.

Lemma callOps_wellLinked call i : wellLinked (callOps call i).
Proof.
  unfold callOps. repeat case_match.
  - constructor.
  - apply wellLinked_single; [done | constructor].
  - apply wellLinked_single; [done | constructor].
  - apply wellLinked_pair; [apply pairedWith_fromOp_toOp | constructor].
Qed.

Lemma zeroOut_wellLinked entries : forall ops out,
  zeroOut entries ops = Ok out -> wellLinked ops -> wellLinked out.
Proof.
  induction entries as [|[acct val] rest IH]; simpl; intros ops out H Hl.
  - by inversion H; subst.
  - repeat case_match; try done; [by eapply IH|].
    apply bind_Ok in H as (i & Hi & H).
    eapply IH; [exact H|].
    apply wellLinked_app; [done|].
    apply wellLinked_single; [done | constructor].
Qed.

Lemma traceOps_wellLinked rho trace startIndex out :
  traceOps rho trace startIndex = Ok out -> wellLinked out.
Proof.
  unfold traceOps. destruct trace as [|c trace].
  - intros [= <-]. constructor.
  - intros H. apply bind_Ok in H as ([ops d] & Hfold & H).
    eapply zeroOut_wellLinked; [exact H|].
    change ops with ((ops, d).1).
    eapply (foldM_invariant (fun st => wellLinked st.1));
      [| | exact Hfold]; [|constructor].
    intros [o1 d1] a s' Hs Hstep.
    destruct (traceCall_callOps startIndex o1 d1 a) as [d' Heq].
    rewrite Heq in Hstep. simplify_eq. simpl.
    apply wellLinked_app; [done | apply callOps_wellLinked].
Qed.

Lemma erc20Ops_shape log currency opsLen out :
  erc20Ops log currency opsLen = Ok out ->
  exists t1 t2,
    Topics log !! 1%nat = Some t1 /\ Topics log !! 2%nat = Some t2
    /\ ((exists op, out = [op] /\ RelatedOperations op = []
                    /\ (BytesToAddress t1 = zeroAddress \/ BytesToAddress t2 = zeroAddress))
        \/ (exists send receive,
              out = [send; receive]
              /\ pairedWith send receive
              /\ OperationIdentifier send = Some opsLen
              /\ Account send = AddressString (BytesToAddress t1)
              /\ Account receive = AddressString (BytesToAddress t2))).
Proof.
  unfold erc20Ops, topic. intros H.
  destruct (Topics log !! 1%nat) as [t1|]; [|done].
  destruct (Topics log !! 2%nat) as [t2|]; [|done].
  simpl in H. exists t1, t2. split; [done|]. split; [done|].
  repeat case_bool_decide; simplify_eq.
  - left. eexists. split; [done|]. split; [done|]. by left.
  - left. eexists. split; [done|]. split; [done|]. by right.
  - right. eexists _, _. split; [done|]. split; [by exists opsLen|]. done.
Qed.

Lemma erc721Ops_shape log opsLen out :
  erc721Ops log opsLen = Ok out ->
  exists t1 t2,
    Topics log !! 1%nat = Some t1 /\ Topics log !! 2%nat = Some t2
    /\ ((exists op, out = [op] /\ RelatedOperations op = []
                    /\ (BytesToAddress t1 = zeroAddress \/ BytesToAddress t2 = zeroAddress))
        \/ (exists send receive,
              out = [send; receive]
              /\ pairedWith send receive
              /\ OperationIdentifier send = Some opsLen
              /\ Account send = AddressString (BytesToAddress t1)
              /\ Account receive = AddressString (BytesToAddress t2))).
Proof.
  unfold erc721Ops, topic. intros H.
  destruct (Topics log !! 1%nat) as [t1|]; [|done].
  destruct (Topics log !! 2%nat) as [t2|]; [|done].
  destruct (Topics log !! 3%nat) as [t3|]; [|done].
  simpl in H. exists t1, t2. split; [done|]. split; [done|].
  repeat case_bool_decide; simplify_eq.
  - left. eexists. split; [done|]. split; [done|]. by left.
  - left. eexists. split; [done|]. split; [done|]. by right.
  - right. eexists _, _. split; [done|]. split; [by exists opsLen|]. done.
Qed.

(** C5. Every receive operation of trace synthesis and of token-transfer
    synthesis lists exactly the index of its send operation, which is the
    operation emitted just before it: a call emits nothing, its send
    operation, or its send operation followed by the receive operation
    linked to it; the output of [traceOps] is made of unlinked operations
    and such adjacent pairs; [erc20Ops] and [erc721Ops] give one unlinked
    operation (mint, burn) or the send operation followed by the receive
    operation linked to it. *)
Theorem credit_references_debit :
  (forall startIndex ops d call st,
     traceCall startIndex (ops, d) call = Ok st ->
     let i := Z.of_nat (length ops) + startIndex in
     pairedWith (fromOp call i) (toOp call i)
     /\ (st.1 = ops \/ st.1 = ops ++ [fromOp call i]
         \/ st.1 = ops ++ [fromOp call i; toOp call i]))
  /\ (forall rho trace startIndex out,
        traceOps rho trace startIndex = Ok out -> wellLinked out)
  /\ (forall log currency opsLen out,
        erc20Ops log currency opsLen = Ok out ->
        (exists op, out = [op] /\ RelatedOperations op = [])
        \/ (exists send receive, out = [send; receive] /\ pairedWith send receive))
  /\ (forall log opsLen out,
        erc721Ops log opsLen = Ok out ->
        (exists op, out = [op] /\ RelatedOperations op = [])
        \/ (exists send receive, out = [send; receive] /\ pairedWith send receive)).
Proof.
  repeat split.
  - apply pairedWith_fromOp_toOp.
  - destruct (traceCall_callOps startIndex ops d call) as [d' Heq].
    rewrite Heq in H. simplify_eq. simpl. unfold callOps.
    repeat case_match; rewrite ?app_nil_r; auto.
  - apply traceOps_wellLinked.
  - intros * H. apply erc20Ops_shape in H as (t1 & t2 & _ & _ & [H|H]).
    + left. destruct H as (op & -> & ? & _). eauto.
    + right. destruct H as (a & b & -> & ? & _). eauto.
  - intros * H. apply erc721Ops_shape in H as (t1 & t2 & _ & _ & [H|H]).
    + left. destruct H as (op & -> & ? & _). eauto.
    + right. destruct H as (a & b & -> & ? & _). eauto.
Qed.

(** ** Zero-value calls *)

Lemma callOps_movesValue call i : Forall movesValue (callOps call i).
Proof.
  unfold callOps.
  destruct (bool_decide (CallValue call = 0)) eqn:Hz; simpl.
  - destruct (CallType (CallKind call)) eqn:Hc; [constructor|].
    repeat case_match; repeat constructor;
      unfold movesValue; simpl; congruence.
  - apply bool_decide_eq_false in Hz.
    repeat case_match; repeat constructor;
      unfold movesValue; simpl; intros _;
      rewrite bool_decide_eq_false_2 by done; eexists; (split; [done|]); simpl; lia.
Qed.

Lemma zeroOut_movesValue entries : forall ops out,
  zeroOut entries ops = Ok out -> Forall movesValue ops -> Forall movesValue out.
Proof.
  induction entries as [|[acct val] rest IH]; simpl; intros ops out H Hl.
  - by inversion H; subst.
  - case_bool_decide as Hz; [by eapply IH|].
    case_bool_decide; [done|].
    apply bind_Ok in H as (i & Hi & H).
    eapply IH; [exact H|].
    apply Forall_app. split; [done|]. repeat constructor.
    intros _. eexists. split; [done|]. simpl. lia.
Qed.

Lemma traceOps_movesValue rho trace startIndex out :
  traceOps rho trace startIndex = Ok out -> Forall movesValue out.
Proof.
  unfold traceOps. destruct trace as [|c trace].
  - intros [= <-]. constructor.
  - intros H. apply bind_Ok in H as ([ops d] & Hfold & H).
    eapply zeroOut_movesValue; [exact H|].
    change ops with ((ops, d).1).
    eapply (foldM_invariant (fun st => Forall movesValue st.1));
      [| | exact Hfold]; [|constructor].
    intros [o1 d1] a s' Hs Hstep.
    destruct (traceCall_callOps startIndex o1 d1 a) as [d' Heq].
    rewrite Heq in Hstep. simplify_eq. simpl.
    apply Forall_app. split; [done | apply callOps_movesValue].
Qed.

(** C7. A call of a value-transfer call kind with value zero emits no
    operation: its iteration leaves the operations as they are and only
    does the self-destruct and create bookkeeping of [destroyedAccounts];
    and no operation of the output of [traceOps] comes from such a call:
    every operation of a value-transfer call kind in it carries a
    non-zero amount. *)
Theorem zero_value_calls_skipped :
  (forall startIndex ops d call,
     CallType (CallKind call) = true -> CallValue call = 0 ->
     traceCall startIndex (ops, d) call = Ok (ops, ledgerOnly call d))
  /\ (forall rho trace startIndex out op,
        traceOps rho trace startIndex = Ok out ->
        op ∈ out -> CallType (OpType op) = true ->
        exists a, OpAmount op = Some a /\ Value a <> 0).
Proof.
  split.
  - intros * Hc Hz. unfold traceCall, ledgerOnly.
    rewrite Hc, (bool_decide_eq_true_2 _ Hz). simpl.
    repeat case_match; done.
  - intros * H Hin Hc. apply traceOps_movesValue in H.
    rewrite Forall_forall in H. by apply H.
Qed.

(** ** The trace of a call followed by a self-destruct *)

Lemma zeroOut_all_zero entries ops :
  Forall (fun e : string * Z => e.2 = 0) entries -> zeroOut entries ops = Ok ops.
Proof.
  induction 1 as [|[acct val] rest Hz _ IH]; simpl in *; [done|].
  by rewrite bool_decide_eq_true_2.
Qed.

Lemma rangeEntries_lookup {V} rho (m : gmap string V) :
  Forall (fun e => m !! e.1 = Some e.2) (rangeEntries rho m).
Proof.
  unfold rangeEntries. apply Forall_forall. intros [k v] Hin.
  apply list_elem_of_omap in Hin as (k' & _ & Hk).
  destruct (m !! k') as [v'|] eqn:Hm; simpl in Hk; simplify_eq. done.
Qed.

Lemma rangeEntries_Permutation {V} rho (m : gmap string V) :
  valid_range rho -> rangeEntries rho m ≡ₚ map_to_list m.
Proof.
  intros Hrho. unfold rangeEntries, rangeKeys. rewrite (Hrho _).
  assert (Hall : Forall (fun e => m !! e.1 = Some e.2) (map_to_list m)).
  { apply Forall_forall. intros [k v] Hin. by apply elem_of_map_to_list. }
  induction Hall as [|[k v] l Hk _ IH]; [done|].
  cbn [map fst omap list_omap]. cbn [fst snd] in Hk. rewrite Hk. cbn.
  by rewrite IH.
Qed.

Lemma zeroOut_zero_ledger rho (d : gmap string Z) ops :
  (forall k v, d !! k = Some v -> v = 0) ->
  zeroOut (rangeEntries rho d) ops = Ok ops.
Proof.
  intros Hd. apply zeroOut_all_zero.
  eapply Forall_impl; [apply rangeEntries_lookup|].
  intros [k v] Hk. simpl in *. eauto.
Qed.

Lemma length_nonzero_ne_empty (s : string) :
  String.length s <> 0%nat -> bool_decide (String.length s = 0%nat) = false.
Proof. intros H. by apply bool_decide_eq_false_2. Qed.

Lemma traceCall_transfer startIndex ops call :
  CallValue call <> 0 -> CallKind call <> OpSelfDestruct ->
  String.length (AddressString (To call)) <> 0%nat ->
  let i := Z.of_nat (length ops) + startIndex in
  traceCall startIndex (ops, ∅) call = Ok (ops ++ [fromOp call i; toOp call i], ∅).
Proof.
  intros Hv Hk Hto i. unfold traceCall.
  rewrite (bool_decide_eq_false_2 _ Hv), (bool_decide_eq_false_2 _ Hk),
    (length_nonzero_ne_empty _ Hto).
  cbn [andb negb]. unfold adjust. rewrite lookup_empty.
  rewrite lastOpIndex_fromOp. cbn [bind].
  rewrite <- app_assoc. cbn [app].
  destruct (CreateType (CallKind call)); by rewrite ?delete_empty, ?lookup_empty.
Qed.

Lemma traceCall_selfdestruct startIndex ops d call :
  CallValue call = 0 -> CallKind call = OpSelfDestruct ->
  CallType OpSelfDestruct = false ->
  AddressString (From call) <> AddressString (To call) ->
  String.length (AddressString (To call)) <> 0%nat ->
  let i := Z.of_nat (length ops) + startIndex in
  traceCall startIndex (ops, d) call
  = Ok (ops ++ [fromOp call i; toOp call i],
        if CreateType OpSelfDestruct
        then delete (AddressString (To call)) (<[AddressString (From call) := 0]> d)
        else <[AddressString (From call) := 0]> d).
Proof.
  intros Hv Hk Hc Hne Hto i. unfold traceCall.
  rewrite Hk, Hc, (bool_decide_eq_true_2 _ Hv),
    (bool_decide_eq_true_2 (OpSelfDestruct = OpSelfDestruct)) by done.
  rewrite (bool_decide_eq_false_2 _ Hne), (length_nonzero_ne_empty _ Hto).
  cbn [andb negb]. unfold adjust.
  rewrite lastOpIndex_fromOp. cbn [bind].
  by rewrite <- app_assoc.
Qed.

(** C6, as amended. The trace [[CALL A -> B, 100; SELFDESTRUCT B -> A, 0]]
    with [A <> B]: the debit of A and the credit of B linked to it, then, for the
    self-destruct, an operation on B and an operation on A linked to it,
    both of the self-destruct kind and without amount; no other operation
    follows, as the entry of B in [destroyedAccounts] is reset to zero by
    the self-destruct. *)
Theorem trace_call_then_selfdestruct
    (F : EnvFacts E) rho (kind : string) (A B : Address) (startIndex : Z) :
  kind <> OpSelfDestruct -> A <> B ->
  let call1 := mkCall kind A B 100 in
  let call2 := mkCall OpSelfDestruct B A 0 in
  traceOps rho [call1; call2] startIndex
  = Ok [fromOp call1 startIndex; toOp call1 startIndex;
        fromOp call2 (startIndex + 2); toOp call2 (startIndex + 2)]
  /\ Value <$> OpAmount (fromOp call1 startIndex) = Some (-100)
  /\ Value <$> OpAmount (toOp call1 startIndex) = Some 100
  /\ OpAmount (fromOp call2 (startIndex + 2)) = None
  /\ OpAmount (toOp call2 (startIndex + 2)) = None.
Proof.
  intros Hkind HAB call1 call2.
  assert (HsAB : AddressString B <> AddressString A).
  { intros Heq. apply AddressString_inj in Heq. congruence. }
  split; [|done].
  unfold traceOps. cbn [foldM].
  rewrite (traceCall_transfer startIndex [] call1);
    [|done | done | apply AddressString_nonempty].
  cbn [bind].
  rewrite (traceCall_selfdestruct startIndex _ ∅ call2);
    [|done | done | apply CallType_OpSelfDestruct | done | apply AddressString_nonempty].
  cbn [bind app length]. 
  replace (Z.of_nat 0 + startIndex) with startIndex by lia.
  replace (Z.of_nat 2 + startIndex) with (startIndex + 2) by lia.
  apply zeroOut_zero_ledger.
  intros k v. cbn [From To call2 mkCall].
  destruct (CreateType OpSelfDestruct).
  - rewrite lookup_delete. case_decide; [done|].
    rewrite lookup_insert. case_decide; rewrite ?lookup_empty; congruence.
  - rewrite lookup_insert. case_decide; rewrite ?lookup_empty; congruence.
Qed.

(** ** Failure of the contract lookup *)

Lemma logOps_lookup_Err client mode whiteList unknown ops log e :
  qualifying mode whiteList log = true ->
  contractLookup client log = Err e ->
  logOps client mode whiteList unknown ops log = Err e.
Proof.
  unfold qualifying, contractLookup, logOps.
  intros Hq Hl. apply andb_true_iff in Hq as [Hq Hn].
  apply andb_true_iff in Hq as [-> ->]. cbn [negb].
  unfold topicsInErc721Transfer, topicsInErc20Transfer in *.
  destruct (decide (length (Topics log) = 4%nat)) as [H4|H4].
  - rewrite (bool_decide_eq_true_2 _ H4).
    rewrite bool_decide_eq_false_2 in Hl by lia. by rewrite Hl.
  - rewrite (bool_decide_eq_false_2 _ H4) in *.
    cbn [orb] in Hn. rewrite Hn in *. by rewrite Hl.
Qed.

Lemma logOps_not_qualifying client mode whiteList unknown ops log :
  qualifying mode whiteList log = false ->
  logOps client mode whiteList unknown ops log = Ok ops.
Proof.
  unfold qualifying, logOps. intros Hq.
  destruct (isTransferLog log); [|done].
  destruct (whitelisted mode whiteList log); [|done].
  cbn [andb negb] in *. apply orb_false_iff in Hq as [-> ->]. done.
Qed.

Lemma logOps_lookup_Ok client mode whiteList unknown ops log info :
  qualifying mode whiteList log = true ->
  contractLookup client log = Ok info ->
  exists ops', logOps client mode whiteList unknown ops log = Ok ops'.
Proof.
  unfold qualifying, contractLookup, logOps.
  intros Hq Hl. apply andb_true_iff in Hq as [Hq Hn].
  apply andb_true_iff in Hq as [-> ->]. cbn [negb].
  unfold topicsInErc721Transfer, topicsInErc20Transfer in *.
  destruct (Topics log) as [|t0 [|t1 [|t2 [|t3 [|t4 ts]]]]] eqn:Ht;
    try (exfalso; revert Hn; clear; cbn; repeat case_bool_decide; (lia || done)).
  - (* three topics *)
    rewrite bool_decide_eq_false_2 by (cbn; lia).
    rewrite bool_decide_eq_true_2 in * by done.
    rewrite Hl. cbn [bind]. case_match; [eauto|].
    unfold erc20Ops, topic. rewrite Ht. cbn.
    repeat case_bool_decide; eauto.
  - (* four topics *)
    rewrite bool_decide_eq_true_2 by done.
    rewrite bool_decide_eq_false_2 in Hl by (cbn; lia).
    rewrite Hl. cbn [bind]. case_match; [eauto|].
    unfold erc721Ops, topic. rewrite Ht. cbn.
    repeat case_bool_decide; eauto.
Qed.

Lemma foldM_logOps_not_Ok client mode whiteList unknown logs log e :
  log ∈ logs ->
  qualifying mode whiteList log = true ->
  contractLookup client log = Err e ->
  forall ops ops', foldM (logOps client mode whiteList unknown) ops logs <> Ok ops'.
Proof.
  intros Hin Hq Hl.
  induction logs as [|l logs IH]; [by apply elem_of_nil in Hin|].
  intros ops ops' H. cbn [foldM] in H.
  apply bind_Ok in H as (ops1 & H1 & H2).
  apply elem_of_cons in Hin as [<- | Hin].
  - by rewrite (logOps_lookup_Err _ _ _ _ _ _ e) in H1.
  - by eapply IH.
Qed.

Lemma foldM_logOps_Ok client mode whiteList unknown logs :
  (forall l, l ∈ logs -> qualifying mode whiteList l = true ->
             exists info, contractLookup client l = Ok info) ->
  forall ops, exists ops', foldM (logOps client mode whiteList unknown) ops logs = Ok ops'.
Proof.
  induction logs as [|l logs IH]; intros Hall ops; cbn [foldM]; [eauto|].
  assert (exists ops1, logOps client mode whiteList unknown ops l = Ok ops1) as [ops1 ->].
  { destruct (qualifying mode whiteList l) eqn:Hq.
    - destruct (Hall l) as [info Hinfo]; [by left | done |].
      by eapply logOps_lookup_Ok.
    - rewrite logOps_not_qualifying by done. eauto. }
  cbn [bind]. apply IH. intros l' Hin. apply Hall. by right.
Qed.

(** C9. When the contract lookup fails for a log that [Transaction] looks
    up, no transaction record is returned; and once the trace operations
    are built, the error returned is the error of the lookup, as it is, of
    the first log whose lookup fails. *)
Theorem lookup_failure_aborts
    rho input receipt trace flattenedTrace client mode whiteList unknown :
  (forall log e,
     log ∈ Logs receipt ->
     qualifying mode whiteList log = true ->
     contractLookup client log = Err e ->
     forall tx,
       Transaction rho input receipt trace flattenedTrace client mode whiteList unknown
       <> Ok tx)
  /\ (forall tops before log after e,
        traceOps rho flattenedTrace 2 = Ok tops ->
        Logs receipt = before ++ log :: after ->
        (forall l, l ∈ before -> qualifying mode whiteList l = true ->
                   exists info, contractLookup client l = Ok info) ->
        qualifying mode whiteList log = true ->
        contractLookup client log = Err e ->
        Transaction rho input receipt trace flattenedTrace client mode whiteList unknown
        = Err e).
Proof.
  split.
  - intros log e Hin Hq Hl tx H. unfold Transaction in H.
    apply bind_Ok in H as (tops & _ & H).
    apply bind_Ok in H as (ops & H & _).
    by eapply foldM_logOps_not_Ok in H.
  - intros tops before log after e Htrace Hlogs Hbefore Hq Hl.
    unfold Transaction.
    change (Z.of_nat (length (feeOps (MsgFrom input) (Coinbase input)
                                (GasUsed receipt) (MsgGasPrice input)))) with 2.
    rewrite Htrace. cbn [bind]. rewrite Hlogs, foldM_app.
    edestruct (foldM_logOps_Ok client mode whiteList unknown before Hbefore) as [ops1 ->].
    cbn [bind foldM].
    by rewrite (logOps_lookup_Err _ _ _ _ _ _ e).
Qed.

(** ** Atomic transactions *)

Lemma sumZ_cons x l : sumZ (x :: l) = x + sumZ l.
Proof. reflexivity. Qed.

Lemma sumZ_app l1 l2 : sumZ (l1 ++ l2) = sumZ l1 + sumZ l2.
Proof. induction l1 as [|x l1 IH]; simpl; lia. Qed.

Lemma to_int64_small x : 0 <= x < 2 ^ 63 -> to_int64 x = x.
Proof.
  intros H. unfold to_int64.
  rewrite Z.mod_small by lia. lia.
Qed.

Lemma to_int64_large x : 2 ^ 63 <= x < 2 ^ 64 -> to_int64 x = x - 2 ^ 64.
Proof.
  intros H. unfold to_int64.
  replace (x + 2 ^ 63) with ((x - 2 ^ 63) + 1 * 2 ^ 64) by lia.
  rewrite Z.mod_add by lia. rewrite Z.mod_small by lia. lia.
Qed.

Lemma importInput_total ins : forall st,
  (fold_left importInput ins st).2
  = st.2 + sumZ ((fun inp => to_int64 (InputAmount inp)) <$> ins).
Proof.
  induction ins as [|inp ins IH]; intros st; cbn [fold_left].
  - cbn. lia.
  - rewrite IH, fmap_cons, sumZ_cons. unfold importInput at 1. cbn [snd]. lia.
Qed.

Lemma importInput_keys ins : forall (st : gmap string () * Z) k,
  is_Some ((fold_left importInput ins st).1 !! k)
  <-> is_Some (st.1 !! k) \/ k ∈ InputTxID <$> ins.
Proof.
  induction ins as [|inp ins IH]; intros st k; cbn [fold_left].
  - rewrite fmap_nil, elem_of_nil. tauto.
  - rewrite IH. unfold importInput at 1. cbn [fst].
    rewrite fmap_cons, lookup_insert_is_Some', elem_of_cons.
    split; [intros [[->|?]|?] | intros [?|[->|?]]]; auto.
Qed.

Lemma importOut_native avaxAssetID id t txIDs st out :
  OutAssetID out = avaxAssetID ->
  importOut avaxAssetID id t txIDs st out
  = {| st_ops := st_ops st ++ [importOp id t txIDs out (st_idx st)];
       st_idx := st_idx st + 1;
       st_exportedOuts := st_exportedOuts st;
       st_metadataSet := st_metadataSet st;
       st_totalInputAmount := st_totalInputAmount st;
       st_totalOutputAmount := st_totalOutputAmount st + OutAmount out |}.
Proof. intros H. unfold importOut. by rewrite bool_decide_eq_true_2. Qed.

Lemma importOut_other avaxAssetID id t txIDs st out :
  OutAssetID out <> avaxAssetID ->
  importOut avaxAssetID id t txIDs st out = st.
Proof. intros H. unfold importOut. by rewrite bool_decide_eq_false_2. Qed.

Lemma importOut_fold avaxAssetID id t txIDs outs : forall st,
  st_totalInputAmount (fold_left (importOut avaxAssetID id t txIDs) outs st)
  = st_totalInputAmount st
  /\ st_totalOutputAmount (fold_left (importOut avaxAssetID id t txIDs) outs st)
     = st_totalOutputAmount st + sumZ (OutAmount <$> nativeOuts avaxAssetID outs)
  /\ st_exportedOuts (fold_left (importOut avaxAssetID id t txIDs) outs st)
     = st_exportedOuts st
  /\ st_metadataSet (fold_left (importOut avaxAssetID id t txIDs) outs st)
     = st_metadataSet st
  /\ (Forall (fun op => tx_ids op = Some (MStrings txIDs)) (st_ops st) ->
      Forall (fun op => tx_ids op = Some (MStrings txIDs))
        (st_ops (fold_left (importOut avaxAssetID id t txIDs) outs st))).
Proof.
  unfold nativeOuts.
  induction outs as [|out outs IH]; intros st; cbn [fold_left].
  - rewrite filter_nil, fmap_nil. cbn. repeat split; auto; lia.
  - destruct (IH (importOut avaxAssetID id t txIDs st out)) as (H1 & H2 & H3 & H4 & H5).
    rewrite H1, H2, H3, H4. clear H1 H2 H3 H4 IH.
    rewrite filter_cons.
    destruct (decide (OutAssetID out = avaxAssetID)) as [Ha|Ha].
    + rewrite importOut_native in * by done.
      cbn [st_ops st_totalInputAmount st_totalOutputAmount st_exportedOuts
           st_metadataSet] in *.
      rewrite fmap_cons, sumZ_cons.
      repeat split; auto; [lia|].
      intros Hall. apply H5. apply Forall_app. split; [done|].
      repeat constructor.
    + rewrite importOut_other in * by done. repeat split; auto.
Qed.

Lemma exportedOutsFrom_total chainAlias hrp id outs : forall i operations total r,
  exportedOutsFrom chainAlias hrp id outs i operations total = Ok r ->
  r.2 = total + sumZ (Amt <$> omap Out outs).
Proof.
  induction outs as [|out outs IH]; intros i operations total r H; cbn in H.
  - inversion H; subst. cbn. lia.
  - cbn [omap list_omap]. destruct (Out out) as [o|]; [|done].
    apply bind_Ok in H as (addr & _ & H). apply IH in H.
    rewrite H, fmap_cons, sumZ_cons. lia.
Qed.

Lemma createExportedOuts_total network chainAlias id outs r :
  createExportedOuts network chainAlias id outs = Ok r ->
  r.2 = sumZ (Amt <$> omap Out outs).
Proof.
  unfold createExportedOuts. intros H.
  apply bind_Ok in H as (hrp & _ & H).
  apply exportedOutsFrom_total in H. lia.
Qed.

Lemma exportIn_totals network aliases avaxAssetID id t st inp st' :
  exportIn network aliases avaxAssetID id t st inp = Ok st' ->
  InAssetID inp = avaxAssetID ->
  st_totalInputAmount st' = st_totalInputAmount st + InAmount inp
  /\ st_totalOutputAmount st'
     = st_totalOutputAmount st
       + match resolvedOutputs aliases t with
         | Some (_, outs) => sumZ (Amt <$> omap Out outs)
         | None => 0
         end.
Proof.
  unfold exportIn, resolvedOutputs. intros H Ha.
  rewrite (bool_decide_eq_true_2 _ Ha) in H. cbn [negb] in H.
  destruct (ExportedOutputs t) as [outs|];
    [destruct (aliases !! DestinationChain t) as [chainAlias|]|].
  - apply bind_Ok in H as (r & Hr & H). apply createExportedOuts_total in Hr.
    inversion H; subst; cbn. by rewrite Hr.
  - inversion H; subst; cbn. lia.
  - inversion H; subst; cbn. lia.
Qed.

Lemma exportIn_fold network aliases avaxAssetID id t ins : forall st st',
  foldM (exportIn network aliases avaxAssetID id t) st ins = Ok st' ->
  st_totalInputAmount st'
  = st_totalInputAmount st + sumZ (InAmount <$> nativeIns avaxAssetID ins)
  /\ st_totalOutputAmount st'
     = st_totalOutputAmount st
       + Z.of_nat (length (nativeIns avaxAssetID ins))
         * match resolvedOutputs aliases t with
           | Some (_, outs) => sumZ (Amt <$> omap Out outs)
           | None => 0
           end.
Proof.
  unfold nativeIns.
  induction ins as [|inp ins IH]; intros st st' H; cbn [foldM] in H.
  - inversion H; subst. rewrite filter_nil, fmap_nil. cbn. lia.
  - apply bind_Ok in H as (st1 & H1 & H).
    apply IH in H as [Hin Hout]. rewrite Hin, Hout, filter_cons.
    destruct (decide (InAssetID inp = avaxAssetID)) as [Ha|Ha].
    + apply exportIn_totals in H1 as [-> ->]; [|done].
      rewrite fmap_cons, sumZ_cons. cbn [length]. lia.
    + unfold exportIn in H1. rewrite (bool_decide_eq_false_2 _ Ha) in H1.
      by inversion H1; subst.
Qed.

Lemma to_int64_amounts (ins : list TransferableInput) :
  Forall (fun inp => 0 <= InputAmount inp < 2 ^ 63) ins ->
  (fun inp => to_int64 (InputAmount inp)) <$> ins = InputAmount <$> ins.
Proof.
  induction 1 as [|inp ins Hi _ IH]; [done|].
  by rewrite !fmap_cons, IH, to_int64_small.
Qed.

(** C3, as amended. The fee of an atomic transaction, in atomic units: for
    an import whose
    imported amounts are below [2^63], the sum of the amounts of all
    imported inputs, of whatever asset, minus the sum of the outputs of
    the native asset; for an export, the sum of the inputs of the native
    asset, minus the sum of all resolved exported outputs when exactly
    one input is of the native asset, and minus nothing when no exported
    output is resolved. *)
Theorem txFee_settled rho network aliases rawIdx avaxAssetID tx operations metadata :
  plainAmounts aliases avaxAssetID (Unsigned tx) ->
  crossChainTransaction rho network aliases rawIdx avaxAssetID tx
  = Ok (operations, metadata) ->
  tx_fee metadata = AtomicAvaxAmount (settledFee aliases avaxAssetID (Unsigned tx)).
Proof.
  unfold crossChainTransaction. intros Hplain H.
  destruct (SignError tx); [done|].
  apply bind_Ok in H as (st & Hst & H). inversion H; subst; clear H.
  cbn [tx_fee]. f_equal.
  destruct (Unsigned tx) as [t|t|name]; cbn [plainAmounts settledFee] in *.
  - inversion Hst; subst; clear Hst.
    edestruct importOut_fold as (-> & -> & _). cbn.
    rewrite importInput_total, to_int64_amounts by done. cbn. lia.
  - apply exportIn_fold in Hst as [-> ->]. cbn.
    destruct Hplain as [-> | ->]; lia.
  - done.
Qed.

(** C10. In the import branch every imported amount goes through [int64]
    before it is added to the input total: the fee is the sum of the
    converted amounts minus the native-asset outputs, and an import of a
    single input of amount [a] with [2^63 <= a < 2^64] and no output has
    the negative fee [a - 2^64], not [a]. *)
Theorem import_amount_through_int64 rho network aliases rawIdx avaxAssetID tx t :
  Unsigned tx = ImportTx t ->
  (forall operations metadata,
     crossChainTransaction rho network aliases rawIdx avaxAssetID tx
     = Ok (operations, metadata) ->
     tx_fee metadata
     = AtomicAvaxAmount
         (sumZ ((fun inp => to_int64 (InputAmount inp)) <$> ImportedInputs t)
          - sumZ (OutAmount <$> nativeOuts avaxAssetID (Outs t))))
  /\ (forall inp,
        SignError tx = None -> ImportedInputs t = [inp] -> Outs t = [] ->
        2 ^ 63 <= InputAmount inp < 2 ^ 64 ->
        crossChainTransaction rho network aliases rawIdx avaxAssetID tx
        = Ok ([], {| exported_outputs := None;
                     tx_fee := AtomicAvaxAmount (InputAmount inp - 2 ^ 64) |})
        /\ InputAmount inp - 2 ^ 64 < 0).
Proof.
  intros Ht. unfold crossChainTransaction. rewrite Ht. split.
  - intros operations metadata H.
    destruct (SignError tx); [done|].
    cbn [bind] in H. inversion H; subst; clear H. cbn [tx_fee]. f_equal.
    edestruct importOut_fold as (-> & -> & _). cbn.
    rewrite importInput_total. cbn. lia.
  - intros inp -> -> -> Ha. split; [|lia].
    cbn. rewrite to_int64_large by done. do 4 f_equal. lia.
Qed.

(** ** The source transaction ids of an import *)

Lemma rangeKeys_NoDup {V} rho (m : gmap string V) :
  valid_range rho -> NoDup (rangeKeys rho m).
Proof.
  intros Hrho. unfold rangeKeys. rewrite (Hrho _).
  apply NoDup_fst_map_to_list.
Qed.

Lemma rangeKeys_elem {V} rho (m : gmap string V) k :
  valid_range rho -> k ∈ rangeKeys rho m <-> is_Some (m !! k).
Proof.
  intros Hrho. unfold rangeKeys. rewrite (Hrho _).
  rewrite list_elem_of_fmap. split.
  - intros [[k' v] [-> Hin]]. apply elem_of_map_to_list in Hin. eauto.
  - intros [v Hv]. exists (k, v). split; [done|]. by apply elem_of_map_to_list.
Qed.

Lemma crossChainTransaction_import_tx_ids rho network aliases rawIdx avaxAssetID tx t
    operations metadata :
  Unsigned tx = ImportTx t ->
  crossChainTransaction rho network aliases rawIdx avaxAssetID tx
  = Ok (operations, metadata) ->
  Forall (fun op => tx_ids op
                    = Some (MStrings (rangeKeys rho
                         (fold_left importInput (ImportedInputs t) (∅, 0)).1)))
    operations.
Proof.
  intros Ht. unfold crossChainTransaction. rewrite Ht.
  destruct (SignError tx); [done|].
  cbn [bind]. intros H. inversion H; subst; clear H.
  edestruct importOut_fold as (_ & _ & _ & _ & Hall). apply Hall. constructor.
Qed.

(** C8, as amended. The [tx_ids] list of the operations of an import:
    every operation carries the same list; it has no duplicates and holds exactly the
    source transaction ids of the imported inputs; the lists of two runs,
    on the imported inputs in any two orders, are permutations of each
    other. The order of the list is the order in which the runtime ranges
    over the map of the ids. *)
Theorem import_tx_ids rho rho' network aliases rawIdx avaxAssetID tx tx' t t'
    operations metadata operations' metadata' :
  valid_range rho -> valid_range rho' ->
  Unsigned tx = ImportTx t -> Unsigned tx' = ImportTx t' ->
  ImportedInputs t ≡ₚ ImportedInputs t' ->
  crossChainTransaction rho network aliases rawIdx avaxAssetID tx
  = Ok (operations, metadata) ->
  crossChainTransaction rho' network aliases rawIdx avaxAssetID tx'
  = Ok (operations', metadata') ->
  exists txIDs txIDs',
    (forall op, op ∈ operations -> tx_ids op = Some (MStrings txIDs))
    /\ (forall op, op ∈ operations' -> tx_ids op = Some (MStrings txIDs'))
    /\ NoDup txIDs
    /\ (forall id, id ∈ txIDs <-> id ∈ InputTxID <$> ImportedInputs t)
    /\ txIDs ≡ₚ txIDs'.
Proof.
  intros Hrho Hrho' Ht Ht' Hperm H H'.
  apply (crossChainTransaction_import_tx_ids _ _ _ _ _ _ t) in H; [|done].
  apply (crossChainTransaction_import_tx_ids _ _ _ _ _ _ t') in H'; [|done].
  rewrite Forall_forall in H, H'.
  eexists _, _. split; [exact H|]. split; [exact H'|].
  assert (Hel : forall r (Hr : valid_range r) (u : UnsignedImportTx) id,
            id ∈ rangeKeys r (fold_left importInput (ImportedInputs u) (∅, 0)).1
            <-> id ∈ InputTxID <$> ImportedInputs u).
  { intros r Hr u id. rewrite rangeKeys_elem, importInput_keys by done.
    cbn [fst]. rewrite lookup_empty. split; [intros [[? ?]|?]|]; auto. done. }
  split; [by apply rangeKeys_NoDup|]. split; [by apply Hel|].
  apply NoDup_Permutation; [by apply rangeKeys_NoDup | by apply rangeKeys_NoDup|].
  intros id. rewrite !Hel by done. by rewrite Hperm.
Qed.

(** ** The output of [traceOps], in full *)

Lemma traceCall_skip startIndex ops d call :
  bool_decide (CallValue call = 0) && CallType (CallKind call) = true ->
  traceCall startIndex (ops, d) call = Ok (ops, ledgerOnly call d).
Proof.
  intros H. unfold traceCall, ledgerOnly. rewrite H. cbn [negb].
  repeat case_match; done.
Qed.

Lemma foldM_traceCall startIndex trace : forall ops d,
  exists d',
    foldM (traceCall startIndex) (ops, d) trace
    = Ok (fold_left (fun ops call =>
                       ops ++ callOps call (Z.of_nat (length ops) + startIndex))
            trace ops, d').
Proof.
  induction trace as [|call trace IH]; intros ops d; cbn [foldM fold_left]; [eauto|].
  destruct (traceCall_callOps startIndex ops d call) as [d1 ->]. cbn [bind].
  apply IH.
Qed.

Lemma foldM_traceCall_finalLedger startIndex trace :
  foldM (traceCall startIndex) ([], ∅) trace
  = Ok (traceCallOps startIndex trace, finalLedger startIndex trace).
Proof.
  unfold finalLedger, traceCallOps.
  destruct (foldM_traceCall startIndex trace [] ∅) as [d' ->]. done.
Qed.

Lemma ledgerOnly_zero call (d : gmap string Z) :
  (forall k v, d !! k = Some v -> v = 0) ->
  forall k v, ledgerOnly call d !! k = Some v -> v = 0.
Proof.
  intros Hd k v. unfold ledgerOnly.
  repeat case_match;
    rewrite ?lookup_delete, ?lookup_insert; repeat case_decide;
    try done; try congruence; eauto;
    rewrite ?lookup_insert; repeat case_decide; try congruence; eauto.
Qed.

Lemma traceCall_settled startIndex st call st' :
  traceCall startIndex st call = Ok st' -> settled st -> settled st'.
Proof.
  destruct st as [ops d]. intros H Hs Hnil.
  destruct (bool_decide (CallValue call = 0) && CallType (CallKind call)) eqn:Hskip.
  - rewrite traceCall_skip in H by done. simplify_eq. cbn [fst snd] in *.
    apply ledgerOnly_zero. by apply Hs.
  - destruct (traceCall_callOps startIndex ops d call) as [d' Heq].
    rewrite Heq in H. simplify_eq. cbn [fst] in Hnil.
    apply app_eq_nil in Hnil as [_ Hnil]. unfold callOps in Hnil.
    rewrite Hskip in Hnil. repeat case_match; done.
Qed.

Lemma foldM_traceCall_settled startIndex trace st :
  foldM (traceCall startIndex) ([], ∅) trace = Ok st -> settled st.
Proof.
  intros H. eapply (foldM_invariant settled); [| |exact H].
  - intros s a s' Hs Hstep. by eapply traceCall_settled.
  - intros _ k v Hk. cbn in Hk. by rewrite lookup_empty in Hk.
Qed.

Lemma lastOpIndex_indexed_Ok start (ops : list Operation) :
  indexedFrom start ops -> ops <> [] ->
  lastOpIndex ops = Ok (start + Z.of_nat (length ops) - 1).
Proof.
  intros Hidx Hne. unfold lastOpIndex.
  destruct (last ops) as [op|] eqn:Hl.
  - rewrite last_lookup in Hl. rewrite (Hidx _ _ Hl). f_equal.
    destruct ops; [done|]. cbn [length Nat.pred]. lia.
  - by apply last_None in Hl.
Qed.

Lemma liquidations_zero entries index acct :
  liquidations ((acct, 0) :: entries) index = liquidations entries index.
Proof. unfold liquidations. by rewrite filter_cons_False by (cbn; lia). Qed.

Lemma liquidations_nonzero entries index acct val :
  val <> 0 ->
  liquidations ((acct, val) :: entries) index
  = destructOp acct val index :: liquidations entries (index + 1).
Proof.
  intros Hv. unfold liquidations. rewrite filter_cons_True by done.
  cbn [imap fst snd]. f_equal; [f_equal; lia|].
  apply imap_ext. intros i e _. cbn. f_equal. lia.
Qed.

Lemma liquidations_all_zero entries index :
  Forall (fun e : string * Z => e.2 = 0) entries -> liquidations entries index = [].
Proof.
  induction 1 as [|[acct val] rest Hz _ IH]; [done|].
  cbn in Hz. subst. by rewrite liquidations_zero.
Qed.

Lemma zeroOut_liquidations start entries : forall ops,
  indexedFrom start ops -> ops <> [] ->
  Forall (fun e : string * Z => 0 <= e.2) entries ->
  zeroOut entries ops
  = Ok (ops ++ liquidations entries (start + Z.of_nat (length ops))).
Proof.
  induction entries as [|[acct val] rest IH]; intros ops Hidx Hne Hall;
    cbn [zeroOut].
  - by rewrite app_nil_r.
  - apply Forall_cons in Hall as [Hv Hall]. cbn [snd] in Hv.
    case_bool_decide as Hz.
    + subst. rewrite liquidations_zero. by apply IH.
    + rewrite bool_decide_eq_false_2 by lia.
      rewrite (lastOpIndex_indexed_Ok start) by done. cbn [bind].
      rewrite liquidations_nonzero by done.
      rewrite IH; [| |by destruct ops|done].
      * rewrite <- app_assoc, length_app. cbn [length app].
        do 3 f_equal; [f_equal; lia | f_equal; lia].
      * apply indexedFrom_app; [done|].
        intros [|k] op Hk; cbn in Hk; simplify_eq. cbn. f_equal. lia.
Qed.

Lemma zeroOut_Ok_nonneg entries : forall ops out,
  zeroOut entries ops = Ok out -> Forall (fun e : string * Z => 0 <= e.2) entries.
Proof.
  induction entries as [|[acct val] rest IH]; intros ops out H; [constructor|].
  cbn [zeroOut] in H. case_bool_decide as Hz.
  - constructor; [cbn; lia | by eapply IH].
  - case_bool_decide; [done|].
    apply bind_Ok in H as (i & _ & H). constructor; [cbn; lia | by eapply IH].
Qed.

Lemma zeroOut_Ok_or_Fatal start entries : forall ops,
  indexedFrom start ops ->
  (ops = [] -> Forall (fun e : string * Z => e.2 = 0) entries) ->
  (exists out, zeroOut entries ops = Ok out)
  \/ (exists msg, zeroOut entries ops = Fatal msg).
Proof.
  induction entries as [|[acct val] rest IH]; intros ops Hidx Hnil; cbn [zeroOut];
    [eauto|].
  case_bool_decide as Hz.
  - apply IH; [done|]. intros Hops. specialize (Hnil Hops).
    by apply Forall_cons in Hnil as [_ ?].
  - case_bool_decide; [eauto|].
    assert (Hne : ops <> []).
    { intros Hops. specialize (Hnil Hops).
      apply Forall_cons in Hnil as [Hv _]. done. }
    rewrite (lastOpIndex_indexed_Ok start) by done. cbn [bind].
    apply IH.
    + apply indexedFrom_app; [done|].
      intros [|k] op Hk; cbn in Hk; simplify_eq. cbn. f_equal. lia.
    + intros Hops. by apply app_eq_nil in Hops as [_ ?].
Qed.

Lemma rangeEntries_settled rho (d : gmap string Z) :
  (forall k v, d !! k = Some v -> v = 0) ->
  Forall (fun e : string * Z => e.2 = 0) (rangeEntries rho d).
Proof.
  intros Hd. eapply Forall_impl; [apply rangeEntries_lookup|].
  intros [k v] Hk. cbn in *. eauto.
Qed.

Lemma rangeEntries_empty {V} rho : rangeEntries rho (∅ : gmap string V) = [].
Proof.
  pose proof (rangeEntries_lookup rho (∅ : gmap string V)) as H.
  destruct (rangeEntries rho ∅) as [|e l]; [done|].
  apply Forall_cons in H as [H _]. by rewrite lookup_empty in H.
Qed.

Lemma traceOps_zeroOut rho trace startIndex :
  traceOps rho trace startIndex
  = zeroOut (rangeEntries rho (finalLedger startIndex trace))
      (traceCallOps startIndex trace).
Proof.
  unfold traceOps. destruct trace as [|call trace].
  - unfold finalLedger, traceCallOps. cbn. by rewrite rangeEntries_empty.
  - by rewrite foldM_traceCall_finalLedger.
Qed.

Lemma traceCallOps_indexed startIndex trace :
  indexedFrom startIndex (traceCallOps startIndex trace).
Proof.
  pose proof (foldM_traceCall_finalLedger startIndex trace) as Hfold.
  change (traceCallOps startIndex trace)
    with ((traceCallOps startIndex trace, finalLedger startIndex trace).1).
  eapply (foldM_invariant (fun st => indexedFrom startIndex st.1));
    [| |exact Hfold]; [|apply indexedFrom_nil].
  intros [o1 d1] a s' Hs Hstep. by eapply traceCall_indexed.
Qed.

Lemma traceCallOps_settled rho startIndex trace :
  traceCallOps startIndex trace = [] ->
  Forall (fun e : string * Z => e.2 = 0)
    (rangeEntries rho (finalLedger startIndex trace)).
Proof.
  intros Hnil. apply rangeEntries_settled.
  pose proof (foldM_traceCall_finalLedger startIndex trace) as Hfold.
  apply foldM_traceCall_settled in Hfold. by apply Hfold.
Qed.

(** X1. [traceOps] returns its operations or exits the process on a
    negative balance: it returns no error, and the reads of the last
    operation, [ops[len(ops)-1]], are never out of range. *)
Theorem traceOps_Ok_or_Fatal rho trace startIndex :
  (exists out, traceOps rho trace startIndex = Ok out)
  \/ (exists msg, traceOps rho trace startIndex = Fatal msg).
Proof.
  rewrite traceOps_zeroOut.
  apply (zeroOut_Ok_or_Fatal startIndex).
  - apply traceCallOps_indexed.
  - apply traceCallOps_settled.
Qed.

(** X2. The output of [traceOps] in full: the operations of the calls, in
    the order of the trace, followed by one account-destruction operation
    for each destroyed account left with a positive balance, of minus that
    balance, with the next indices, in the order in which the runtime
    ranges over the accounts; an account left with balance zero gives no
    operation, and every destroyed account is visited. *)
Theorem traceOps_output rho trace startIndex out :
  traceOps rho trace startIndex = Ok out ->
  let ops := traceCallOps startIndex trace in
  let entries := rangeEntries rho (finalLedger startIndex trace) in
  out = ops ++ liquidations entries (startIndex + Z.of_nat (length ops))
  /\ Forall (fun e => 0 <= e.2) entries
  /\ (valid_range rho -> entries ≡ₚ map_to_list (finalLedger startIndex trace)).
Proof.
  rewrite traceOps_zeroOut. intros H ops entries.
  assert (Hall : Forall (fun e => 0 <= e.2) entries) by by eapply zeroOut_Ok_nonneg.
  split; [|split; [done | by apply rangeEntries_Permutation]].
  destruct (decide (ops = [])) as [Hnil|Hne].
  - pose proof (traceCallOps_settled rho _ _ Hnil) as Hz. fold entries in Hz.
    rewrite zeroOut_all_zero in H by done. simplify_eq.
    by rewrite liquidations_all_zero, app_nil_r.
  - rewrite (zeroOut_liquidations startIndex) in H;
      [by simplify_eq | apply traceCallOps_indexed | done | done].
Qed.

(** X3. For a runtime that visits every account, [traceOps] exits the
    process exactly when a destroyed account is left with a negative
    balance at the end of the trace. *)
Theorem traceOps_Fatal_iff rho trace startIndex :
  valid_range rho ->
  (exists msg, traceOps rho trace startIndex = Fatal msg)
  <-> exists acct val, finalLedger startIndex trace !! acct = Some val /\ val < 0.
Proof.
  intros Hrho. rewrite traceOps_zeroOut.
  set (entries := rangeEntries rho (finalLedger startIndex trace)).
  set (ops := traceCallOps startIndex trace).
  assert (Hiff : Forall (fun e : string * Z => 0 <= e.2) entries
                 <-> exists out, zeroOut entries ops = Ok out).
  { split; [|intros [out H]; by eapply zeroOut_Ok_nonneg].
    intros Hall. destruct (decide (ops = [])) as [Hnil|Hne].
    - rewrite zeroOut_all_zero; [eauto|]. by apply traceCallOps_settled.
    - rewrite (zeroOut_liquidations startIndex);
        [eauto | apply traceCallOps_indexed | done | done]. }
  assert (Hcases : (exists out, zeroOut entries ops = Ok out)
                   \/ (exists msg, zeroOut entries ops = Fatal msg)).
  { apply (zeroOut_Ok_or_Fatal startIndex);
      [apply traceCallOps_indexed | apply traceCallOps_settled]. }
  assert (Hneg : ~ Forall (fun e : string * Z => 0 <= e.2) entries
                 <-> exists acct val,
                       finalLedger startIndex trace !! acct = Some val /\ val < 0).
  { unfold entries. rewrite (rangeEntries_Permutation rho _ Hrho).
    rewrite Forall_forall. split.
    - intros Hn.
      destruct (decide (Forall (fun e : string * Z => 0 <= e.2)
                          (map_to_list (finalLedger startIndex trace)))) as [Hf|Hf].
      + exfalso. apply Hn. by rewrite Forall_forall in Hf.
      + apply not_Forall_Exists in Hf; [|intros e; apply _].
        apply Exists_exists in Hf as ([acct val] & Hin & Hv). cbn in Hv.
        apply elem_of_map_to_list in Hin. exists acct, val. split; [done|lia].
    - intros (acct & val & Hl & Hv) Hall.
      apply elem_of_map_to_list in Hl. specialize (Hall _ Hl). cbn in Hall. lia. }
  rewrite <- Hneg, Hiff. split.
  - intros [msg Hm] [out Ho]. congruence.
  - intros Hn. destruct Hcases as [Ho|Hm]; [done|done].
Qed.

(** ** Reverted calls, and traces without self-destruct *)

Lemma adjust_failure zeroValue acct delta (d : gmap string Z) :
  adjust zeroValue StatusFailure acct delta d = d.
Proof. unfold adjust. repeat case_match; done. Qed.

Lemma adjust_empty zeroValue opStatus acct delta :
  adjust zeroValue opStatus acct delta ∅ = ∅.
Proof. unfold adjust. rewrite lookup_empty. by destruct zeroValue. Qed.

(** X4. A reverted call changes no balance of [destroyedAccounts]: its
    iteration does the self-destruct and create bookkeeping only, and the
    operations it emits have the failure status and carry the error of the
    call. *)
Theorem reverted_call_keeps_balances startIndex ops d call :
  Revert call = true ->
  let new := callOps call (Z.of_nat (length ops) + startIndex) in
  traceCall startIndex (ops, d) call = Ok (ops ++ new, ledgerOnly call d)
  /\ Forall (fun op => OpStatus op = StatusFailure
                       /\ Metadata op !! "error" = Some (MString (CallError call)))
       new.
Proof.
  intros Hr new. split.
  - subst new. unfold traceCall, callOps, ledgerOnly. rewrite Hr.
    destruct (bool_decide (CallValue call = 0) && CallType (CallKind call));
      cbn [negb]; rewrite ?adjust_failure.
    + repeat case_match; by rewrite ?app_nil_r.
    + repeat case_match; rewrite ?lastOpIndex_fromOp; cbn [bind];
        rewrite ?adjust_failure, <- ?app_assoc; done.
  - subst new. unfold callOps.
    repeat case_match; repeat constructor; cbn; rewrite Hr; try done;
      by rewrite lookup_singleton_eq.
Qed.

Lemma traceCall_no_selfdestruct startIndex ops call :
  CallKind call <> OpSelfDestruct ->
  traceCall startIndex (ops, ∅) call
  = Ok (ops ++ callOps call (Z.of_nat (length ops) + startIndex), ∅).
Proof.
  intros Hk. unfold traceCall, callOps.
  rewrite (bool_decide_eq_false_2 _ Hk). cbn [andb].
  destruct (bool_decide (CallValue call = 0) && CallType (CallKind call));
    cbn [negb]; rewrite ?adjust_empty.
  - repeat case_match; by rewrite ?app_nil_r, ?delete_empty.
  - repeat case_match; rewrite ?lastOpIndex_fromOp; cbn [bind];
      rewrite ?delete_empty, ?adjust_empty, <- ?app_assoc; done.
Qed.

Lemma foldM_no_selfdestruct startIndex trace : forall ops,
  Forall (fun call => CallKind call <> OpSelfDestruct) trace ->
  foldM (traceCall startIndex) (ops, ∅) trace
  = Ok (fold_left (fun ops call =>
                     ops ++ callOps call (Z.of_nat (length ops) + startIndex))
          trace ops, ∅).
Proof.
  induction trace as [|call trace IH]; intros ops Hall; cbn [foldM fold_left]; [done|].
  apply Forall_cons in Hall as [Hk Hall].
  rewrite traceCall_no_selfdestruct by done. cbn [bind]. by apply IH.
Qed.

(** X5. A trace without self-destruct never fails and destroys no
    account: [traceOps] returns exactly the operations of its calls,
    whatever the order of the runtime. *)
Theorem traceOps_without_selfdestruct rho trace startIndex :
  Forall (fun call => CallKind call <> OpSelfDestruct) trace ->
  traceOps rho trace startIndex = Ok (traceCallOps startIndex trace)
  /\ finalLedger startIndex trace = ∅.
Proof.
  intros Hall.
  assert (Hl : finalLedger startIndex trace = ∅).
  { unfold finalLedger. by rewrite foldM_no_selfdestruct. }
  split; [|done].
  by rewrite traceOps_zeroOut, Hl, rangeEntries_empty.
Qed.

(** ** More on the assembly of a transaction *)

Lemma adjust_lookup_ne zeroValue opStatus acct delta (d : gmap string Z) k :
  acct <> k -> adjust zeroValue opStatus acct delta d !! k = d !! k.
Proof.
  intros Hne. unfold adjust. repeat case_match; try done.
  by rewrite lookup_insert_ne.
Qed.

(** X6. A self-destruct resets the balance of the destroyed account to
    zero, whatever its balance was and also when the call is reverted. *)
Theorem selfdestruct_resets_balance startIndex ops d call st :
  CallKind call = OpSelfDestruct ->
  traceCall startIndex (ops, d) call = Ok st ->
  st.2 !! AddressString (From call) = Some 0.
Proof.
  intros Hk. unfold traceCall. rewrite Hk.
  rewrite (bool_decide_eq_true_2 (OpSelfDestruct = OpSelfDestruct)) by done.
  cbn [andb].
  destruct (negb (bool_decide (CallValue call = 0) && CallType OpSelfDestruct)).
  - case_bool_decide as Hft; [intros [= <-]; cbn; by rewrite lookup_insert_eq|].
    case_bool_decide; [intros [= <-]; cbn; by rewrite lookup_insert_eq|].
    rewrite lastOpIndex_fromOp. cbn [bind]. intros [= <-]. cbn [snd].
    rewrite adjust_lookup_ne by done.
    destruct (CreateType OpSelfDestruct);
      [rewrite lookup_delete_ne by done|]; by rewrite lookup_insert_eq.
  - case_bool_decide as Hft; [intros [= <-]; cbn; by rewrite lookup_insert_eq|].
    case_bool_decide; [intros [= <-]; cbn; by rewrite lookup_insert_eq|].
    intros [= <-]. cbn [snd].
    destruct (CreateType OpSelfDestruct);
      [rewrite lookup_delete_ne by done|]; by rewrite lookup_insert_eq.
Qed.

Lemma topic_Ok log (i : nat) :
  (i < length (Topics log))%nat -> exists h, topic log i = Ok h.
Proof.
  intros Hi. unfold topic.
  destruct (Topics log !! i) eqn:Hl; [eauto|].
  apply lookup_ge_None in Hl. lia.
Qed.

Lemma topic_Panic log (i : nat) :
  (length (Topics log) <= i)%nat -> topic log i = Panic.
Proof. intros Hi. unfold topic. by rewrite lookup_ge_None_2. Qed.

(** X7. [erc20Ops] reads the topics 1 and 2 and [erc721Ops] the topics 1,
    2 and 3: on a log with fewer topics the read is out of range and the
    function panics, and with the topics there it always returns one or
    two operations, never an error. *)
Theorem token_ops_topic_bounds log currency opsLen :
  ((length (Topics log) < 3)%nat -> erc20Ops log currency opsLen = Panic)
  /\ ((3 <= length (Topics log))%nat ->
      exists out, erc20Ops log currency opsLen = Ok out
                  /\ (1 <= length out <= 2)%nat)
  /\ ((length (Topics log) < 4)%nat -> erc721Ops log opsLen = Panic)
  /\ ((4 <= length (Topics log))%nat ->
      exists out, erc721Ops log opsLen = Ok out
                  /\ (1 <= length out <= 2)%nat).
Proof.
  repeat split.
  - intros Hn. unfold erc20Ops.
    destruct (decide (length (Topics log) <= 1)%nat).
    + by rewrite topic_Panic.
    + destruct (topic_Ok log 1) as [h ->]; [lia|]. cbn [bind].
      by rewrite topic_Panic by lia.
  - intros Hn. unfold erc20Ops.
    destruct (topic_Ok log 1) as [h1 ->]; [lia|].
    destruct (topic_Ok log 2) as [h2 ->]; [lia|]. cbn [bind].
    repeat case_bool_decide; eexists; (split; [done|]); cbn; lia.
  - intros Hn. unfold erc721Ops.
    destruct (decide (length (Topics log) <= 1)%nat); [by rewrite topic_Panic|].
    destruct (topic_Ok log 1) as [h1 ->]; [lia|]. cbn [bind].
    destruct (decide (length (Topics log) <= 2)%nat); [by rewrite topic_Panic|].
    destruct (topic_Ok log 2) as [h2 ->]; [lia|]. cbn [bind].
    by rewrite topic_Panic by lia.
  - intros Hn. unfold erc721Ops.
    destruct (topic_Ok log 1) as [h1 ->]; [lia|].
    destruct (topic_Ok log 2) as [h2 ->]; [lia|].
    destruct (topic_Ok log 3) as [h3 ->]; [lia|]. cbn [bind].
    repeat case_bool_decide; eexists; (split; [done|]); cbn; lia.
Qed.

Lemma foldM_logOps_extends client mode whiteList unknown logs : forall ops ops',
  foldM (logOps client mode whiteList unknown) ops logs = Ok ops' ->
  exists tokens, ops' = ops ++ tokens.
Proof.
  induction logs as [|log logs IH]; intros ops ops' H; cbn [foldM] in H.
  - simplify_eq. exists []. by rewrite app_nil_r.
  - apply bind_Ok in H as (ops1 & H1 & H).
    apply logOps_extends in H1 as (new & -> & _).
    apply IH in H as (tokens & ->). exists (new ++ tokens). by rewrite app_assoc.
Qed.

(** X8. [Transaction] returns a record whenever trace synthesis returns
    and the lookup succeeds for every log that is looked up: no read of a
    topic is out of range. The record has the hash of the transaction and
    its operations are the fee operations, then the trace operations, then
    the token operations. *)
Theorem Transaction_returns
    rho input receipt trace flattenedTrace client mode whiteList unknown tops :
  traceOps rho flattenedTrace 2 = Ok tops ->
  (forall log, log ∈ Logs receipt -> qualifying mode whiteList log = true ->
               exists info, contractLookup client log = Ok info) ->
  exists tx tokens,
    Transaction rho input receipt trace flattenedTrace client mode whiteList unknown
    = Ok tx
    /\ TransactionHash tx = HashString (TxHash input)
    /\ Operations tx
       = feeOps (MsgFrom input) (Coinbase input) (GasUsed receipt) (MsgGasPrice input)
         ++ tops ++ tokens.
Proof.
  intros Htrace Hlogs. unfold Transaction.
  change (Z.of_nat (length (feeOps (MsgFrom input) (Coinbase input)
                              (GasUsed receipt) (MsgGasPrice input)))) with 2.
  rewrite Htrace. cbn [bind].
  edestruct (foldM_logOps_Ok client mode whiteList unknown (Logs receipt) Hlogs)
    as [ops Hops].
  rewrite Hops. cbn [bind].
  apply foldM_logOps_extends in Hops as (tokens & ->).
  eexists _, tokens. split; [done|]. split; [done|]. cbn [Operations app].
  by rewrite <- app_assoc.
Qed.

Lemma foldM_logOps_filter client mode whiteList unknown logs : forall ops,
  foldM (logOps client mode whiteList unknown) ops logs
  = foldM (logOps client mode whiteList unknown) ops
      (filter (fun log => qualifying mode whiteList log = true) logs).
Proof.
  induction logs as [|log logs IH]; intros ops; [done|].
  rewrite filter_cons. destruct (qualifying mode whiteList log) eqn:Hq.
  - rewrite decide_True by done. cbn [foldM].
    destruct (logOps client mode whiteList unknown ops log); cbn [bind]; auto.
  - rewrite decide_False by done. cbn [foldM].
    rewrite logOps_not_qualifying by done. cbn [bind]. apply IH.
Qed.

(** X9. The logs that are not looked up count for nothing: a log without
    the transfer signature as first topic, of a token that is not
    whitelisted in standard mode, or with a number of topics other than
    three or four, causes no lookup, no operation and no failure, so that
    the operations, or the failure, of [Transaction] are those of the
    receipt without these logs. *)
Theorem Transaction_ignores_other_logs
    rho input receipt trace flattenedTrace client mode whiteList unknown :
  resultMap Operations
    (Transaction rho input receipt trace flattenedTrace client mode whiteList unknown)
  = resultMap Operations
      (Transaction rho input (qualifyingLogs mode whiteList receipt) trace
         flattenedTrace client mode whiteList unknown).
Proof.
  unfold Transaction, qualifyingLogs. cbn [GasUsed Logs].
  destruct (traceOps rho flattenedTrace _); cbn [bind resultMap]; try done.
  rewrite foldM_logOps_filter.
  destruct (foldM _ _ _); done.
Qed.

(** ** More on atomic transactions *)

Lemma exportedOutsFrom_spec chainAlias hrp id outs : forall i operations total r,
  exportedOutsFrom chainAlias hrp id outs i operations total = Ok r ->
  exists new,
    r.1 = operations ++ new
    /\ length new = length outs
    /\ forall (k : nat) out, outs !! k = Some out ->
         exists o addr,
           Out out = Some o
           /\ new !! k
              = Some (exportedOutOp addr (Amt o)
                        {| UTXO_TxID := id;
                           UTXO_OutputIndex := to_uint32 (i + Z.of_nat k) |})
           /\ match Addrs o with
              | [] => addr = ""
              | a :: _ => addressFormat chainAlias hrp a = Ok addr
              end.
Proof.
  induction outs as [|out outs IH]; intros i operations total r H;
    cbn [exportedOutsFrom] in H.
  - simplify_eq. exists []. cbn. rewrite app_nil_r. repeat split; [done..|].
    intros k out Hk. by rewrite lookup_nil in Hk.
  - destruct (Out out) as [o|] eqn:Ho; [|done].
    apply bind_Ok in H as (addr & Haddr & H).
    apply IH in H as (new & Hr & Hlen & Hnew).
    eexists (_ :: new). rewrite Hr, <- app_assoc. split; [done|].
    split; [cbn; lia|].
    intros [|k] out' Hk; cbn in Hk.
    + simplify_eq. exists o, addr. split; [done|]. split.
      * replace (i + Z.of_nat 0) with i by lia. done.
      * destruct (Addrs o); [by simplify_eq|done].
    + destruct (Hnew k out' Hk) as (o' & addr' & ? & Hl & ?).
      exists o', addr'. split; [done|]. split; [|done].
      replace (i + Z.of_nat (S k)) with (i + 1 + Z.of_nat k) by lia. done.
Qed.

(** X10. When [createExportedOuts] returns, the network has a prefix, and
    there is exactly one operation for each exported output, in order: the
    output [k] gives an export operation without operation identifier, of
    the amount of the output in the atomic currency, with the coin-created
    UTXO id of the transaction id and of [k] as a 32-bit index, on the
    address formatted from the first address of the output, or on the
    empty address when the output has none; the total returned is the sum
    of the amounts. *)
Theorem createExportedOuts_spec network chainAlias id outs operations total :
  createExportedOuts network chainAlias id outs = Ok (operations, total) ->
  exists hrp,
    GetHRP network = Ok hrp
    /\ length operations = length outs
    /\ total = sumZ (Amt <$> omap Out outs)
    /\ forall (k : nat) out, outs !! k = Some out ->
         exists o addr,
           Out out = Some o
           /\ operations !! k
              = Some (exportedOutOp addr (Amt o)
                        {| UTXO_TxID := id;
                           UTXO_OutputIndex := to_uint32 (Z.of_nat k) |})
           /\ match Addrs o with
              | [] => addr = ""
              | a :: _ => addressFormat chainAlias hrp a = Ok addr
              end.
Proof.
  unfold createExportedOuts. intros H.
  apply bind_Ok in H as (hrp & Hhrp & H). exists hrp. split; [done|].
  pose proof (exportedOutsFrom_total _ _ _ _ _ _ _ _ H) as Ht.
  apply exportedOutsFrom_spec in H as (new & Hr & Hlen & Hnew).
  cbn [fst snd app] in Hr, Ht. subst operations.
  split; [done|]. split; [lia|]. exact Hnew.
Qed.

Lemma importOut_fold_ops avaxAssetID id t txIDs outs : forall st,
  st_ops (fold_left (importOut avaxAssetID id t txIDs) outs st)
  = st_ops st
    ++ imap (fun i out => importOp id t txIDs out (st_idx st + Z.of_nat i))
         (nativeOuts avaxAssetID outs).
Proof.
  unfold nativeOuts.
  induction outs as [|out outs IH]; intros st; cbn [fold_left].
  - by rewrite filter_nil, app_nil_r.
  - rewrite IH, filter_cons.
    destruct (decide (OutAssetID out = avaxAssetID)) as [Ha|Ha].
    + rewrite importOut_native by done. cbn [st_ops st_idx imap].
      rewrite <- app_assoc. cbn [app]. do 2 f_equal.
      * f_equal. lia.
      * apply imap_ext. intros i o _. cbn. f_equal. lia.
    + by rewrite importOut_other.
Qed.

(** X11. An import, once signed, always returns: one import operation for
    each output of the native asset, in the order of the outputs and
    numbered from [rawIdx] on, crediting the address of the output with
    its amount times [10^9] in the whole-unit currency; the outputs of
    another asset give no operation; no exported outputs are attached. *)
Theorem import_operations rho network aliases rawIdx avaxAssetID tx t :
  Unsigned tx = ImportTx t -> SignError tx = None ->
  exists txIDs fee,
    crossChainTransaction rho network aliases rawIdx avaxAssetID tx
    = Ok (imap (fun i out => importOp (TxID tx) t txIDs out (rawIdx + Z.of_nat i))
            (nativeOuts avaxAssetID (Outs t)),
          {| exported_outputs := None; tx_fee := AtomicAvaxAmount fee |})
    /\ forall (k : nat) out,
         nativeOuts avaxAssetID (Outs t) !! k = Some out ->
         OutAssetID out = avaxAssetID
         /\ out ∈ Outs t
         /\ OpAmount (importOp (TxID tx) t txIDs out (rawIdx + Z.of_nat k))
            = Some {| Value := OutAmount out * 1000000000;
                      AmountCurrency := AvaxCurrency |}.
Proof.
  intros Ht Hs. unfold crossChainTransaction. rewrite Ht, Hs. cbn [bind].
  eexists _, _. split.
  - rewrite importOut_fold_ops. cbn [st_ops st_idx app].
    edestruct importOut_fold as (_ & _ & -> & -> & _). cbn.
    reflexivity.
  - intros k out Hk. apply list_elem_of_lookup_2 in Hk.
    unfold nativeOuts in Hk. apply list_elem_of_filter in Hk as [Ha Hin]. done.
Qed.

Lemma exportIn_other network aliases avaxAssetID id t st inp :
  InAssetID inp <> avaxAssetID ->
  exportIn network aliases avaxAssetID id t st inp = Ok st.
Proof. intros H. unfold exportIn. by rewrite bool_decide_eq_false_2. Qed.

Lemma exportIn_native network aliases avaxAssetID id t st inp :
  InAssetID inp = avaxAssetID ->
  exportIn network aliases avaxAssetID id t st inp
  = match resolvedOutputs aliases t with
    | Some (chainAlias, outs) =>
        r <- createExportedOuts network chainAlias id outs ;;
        Ok {| st_ops := st_ops st ++ [exportOp id t inp (st_idx st)];
              st_idx := st_idx st + 1;
              st_exportedOuts := st_exportedOuts st ++ r.1;
              st_metadataSet := true;
              st_totalInputAmount := st_totalInputAmount st + InAmount inp;
              st_totalOutputAmount := st_totalOutputAmount st + r.2 |}
    | None =>
        Ok {| st_ops := st_ops st ++ [exportOp id t inp (st_idx st)];
              st_idx := st_idx st + 1;
              st_exportedOuts := st_exportedOuts st;
              st_metadataSet := st_metadataSet st;
              st_totalInputAmount := st_totalInputAmount st + InAmount inp;
              st_totalOutputAmount := st_totalOutputAmount st |}
    end.
Proof.
  intros H. unfold exportIn, resolvedOutputs. rewrite bool_decide_eq_true_2 by done.
  cbn [negb]. by repeat case_match.
Qed.

Lemma exportIn_fold_ops network aliases avaxAssetID id t ins : forall st st',
  foldM (exportIn network aliases avaxAssetID id t) st ins = Ok st' ->
  st_ops st'
  = st_ops st ++ imap (fun i inp => exportOp id t inp (st_idx st + Z.of_nat i))
                   (nativeIns avaxAssetID ins)
  /\ st_idx st' = st_idx st + Z.of_nat (length (nativeIns avaxAssetID ins))
  /\ match resolvedOutputs aliases t with
     | Some (chainAlias, outs) =>
         (nativeIns avaxAssetID ins = []
          /\ st_exportedOuts st' = st_exportedOuts st
          /\ st_metadataSet st' = st_metadataSet st)
         \/ (nativeIns avaxAssetID ins <> []
             /\ exists r,
                  createExportedOuts network chainAlias id outs = Ok r
                  /\ st_exportedOuts st'
                     = st_exportedOuts st
                       ++ mjoin (replicate (length (nativeIns avaxAssetID ins)) r.1)
                  /\ st_metadataSet st' = true)
     | None =>
         st_exportedOuts st' = st_exportedOuts st
         /\ st_metadataSet st' = st_metadataSet st
     end.
Proof.
  unfold nativeIns.
  induction ins as [|inp ins IH]; intros st st' H; cbn [foldM] in H.
  - simplify_eq. rewrite filter_nil. cbn. rewrite app_nil_r.
    split; [done|]. split; [lia|]. repeat case_match; auto.
  - apply bind_Ok in H as (st1 & H1 & H). apply IH in H as (Hops & Hidx & Hexp).
    rewrite filter_cons.
    destruct (decide (InAssetID inp = avaxAssetID)) as [Ha|Ha].
    + rewrite exportIn_native in H1 by done.
      destruct (resolvedOutputs aliases t) as [[chainAlias outs]|].
      * apply bind_Ok in H1 as (r & Hr & H1). simplify_eq.
        cbn [st_ops st_idx st_exportedOuts st_metadataSet] in *.
        split; [|split; [cbn [length]; lia|]].
        { rewrite Hops, <- app_assoc. cbn [app imap]. do 2 f_equal.
          - f_equal. lia.
          - apply imap_ext. intros i o _. cbn. f_equal. lia. }
        right. split; [done|]. exists r. split; [done|].
        destruct Hexp as [(Hnil & -> & ->) | (Hne & r' & Hr' & -> & ->)].
        -- rewrite Hnil. cbn. by rewrite app_nil_r.
        -- rewrite Hr in Hr'. simplify_eq. cbn [length replicate].
           cbn. by rewrite <- app_assoc.
      * simplify_eq. cbn [st_ops st_idx st_exportedOuts st_metadataSet] in *.
        split; [|split; [cbn [length]; lia | done]].
        rewrite Hops, <- app_assoc. cbn [app imap]. do 2 f_equal.
        -- f_equal. lia.
        -- apply imap_ext. intros i o _. cbn. f_equal. lia.
    + rewrite exportIn_other in H1 by done. simplify_eq. done.
Qed.

(** X12. The operations of an export that returns: one export operation
    for each input of the native asset, in the order of the inputs and
    numbered from [rawIdx] on, debiting the address of the input. Exported
    outputs are attached only when they are resolved and an input is of
    the native asset; they are then the operations of
    [createExportedOuts], repeated once for each input of the native
    asset, numbered after the operations of the inputs. *)
Theorem export_operations rho network aliases rawIdx avaxAssetID tx t
    operations metadata :
  Unsigned tx = ExportTx t ->
  crossChainTransaction rho network aliases rawIdx avaxAssetID tx
  = Ok (operations, metadata) ->
  let ins := nativeIns avaxAssetID (Ins t) in
  operations
  = imap (fun i inp => exportOp (TxID tx) t inp (rawIdx + Z.of_nat i)) ins
  /\ match resolvedOutputs aliases t with
     | Some (chainAlias, outs) =>
         (ins = [] /\ exported_outputs metadata = None)
         \/ (ins <> []
             /\ exists eops total,
                  createExportedOuts network chainAlias (TxID tx) outs
                  = Ok (eops, total)
                  /\ exported_outputs metadata
                     = Some (indexExportedOuts (rawIdx + Z.of_nat (length ins))
                               (mjoin (replicate (length ins) eops))))
     | None => exported_outputs metadata = None
     end.
Proof.
  intros Ht H ins. unfold crossChainTransaction in H. rewrite Ht in H.
  destruct (SignError tx); [done|].
  apply bind_Ok in H as (st & Hst & H). simplify_eq.
  apply exportIn_fold_ops in Hst as (Hops & Hidx & Hexp).
  cbn [st_ops st_idx st_exportedOuts st_metadataSet app] in *.
  fold ins in Hops, Hidx, Hexp. split; [done|]. cbn [exported_outputs].
  destruct (resolvedOutputs aliases t) as [[chainAlias outs]|].
  - destruct Hexp as [(Hnil & _ & ->) | (Hne & [eops total] & Hr & -> & ->)].
    + by left.
    + right. split; [done|]. exists eops, total. split; [done|].
      by rewrite Hidx.
  - destruct Hexp as [_ ->]. done.
Qed.

Lemma imap_indexedFrom {A} (f : A -> Z -> Operation) rawIdx (l : list A) :
  (forall x j, OperationIdentifier (f x j) = Some j) ->
  indexedFrom rawIdx (imap (fun i x => f x (rawIdx + Z.of_nat i)) l).
Proof.
  intros Hf k op Hk. rewrite list_lookup_imap in Hk.
  destruct (l !! k); cbn in Hk; simplify_eq. apply Hf.
Qed.

Lemma indexExportedOuts_indexed idx exportedOuts :
  indexedFrom idx (indexExportedOuts idx exportedOuts).
Proof.
  intros k op Hk. unfold indexExportedOuts in Hk. rewrite list_lookup_imap in Hk.
  destruct (exportedOuts !! k); cbn in Hk; simplify_eq. done.
Qed.

(** X13. The operations of an atomic transaction that returns are
    numbered [rawIdx], [rawIdx + 1], ... without gap, and the exported
    outputs attached to its metadata continue the numbering after them. *)
Theorem crossChainTransaction_indices rho network aliases rawIdx avaxAssetID tx
    operations metadata :
  crossChainTransaction rho network aliases rawIdx avaxAssetID tx
  = Ok (operations, metadata) ->
  OperationIdentifier <$> operations
  = (fun k : nat => Some (rawIdx + Z.of_nat k)) <$> seq 0 (length operations)
  /\ forall exported,
       exported_outputs metadata = Some exported ->
       OperationIdentifier <$> exported
       = (fun k : nat => Some (rawIdx + Z.of_nat (length operations) + Z.of_nat k))
           <$> seq 0 (length exported).
Proof.
  unfold crossChainTransaction. intros H.
  destruct (SignError tx); [done|].
  apply bind_Ok in H as (st & Hst & H). simplify_eq. cbn [exported_outputs].
  destruct (Unsigned tx) as [t|t|name]; [| |done].
  - simplify_eq. rewrite importOut_fold_ops. cbn [st_ops st_idx app].
    edestruct importOut_fold as (_ & _ & _ & -> & _). cbn [st_metadataSet].
    split; [|done].
    apply indexedFrom_map.
    by apply (imap_indexedFrom (fun out j => importOp _ _ _ out j)).
  - apply exportIn_fold_ops in Hst as (Hops & Hidx & _).
    cbn [st_ops st_idx app] in Hops, Hidx. rewrite Hops, Hidx. split.
    + apply indexedFrom_map.
      by apply (imap_indexedFrom (fun inp j => exportOp _ _ inp j)).
    + intros exported Hexp. destruct (st_metadataSet st); [|done].
      simplify_eq. rewrite length_imap.
      apply indexedFrom_map, indexExportedOuts_indexed.
Qed.

Lemma foldM_exportIn_Err network aliases avaxAssetID id t e ins : forall st,
  foldM (exportIn network aliases avaxAssetID id t) st ins = Err e
  <-> nativeIns avaxAssetID ins <> []
      /\ exists chainAlias outs,
           resolvedOutputs aliases t = Some (chainAlias, outs)
           /\ createExportedOuts network chainAlias id outs = Err e.
Proof.
  unfold nativeIns.
  induction ins as [|inp ins IH]; intros st; cbn [foldM].
  - rewrite filter_nil. split; [done | by intros [? _]].
  - rewrite filter_cons.
    destruct (decide (InAssetID inp = avaxAssetID)) as [Ha|Ha].
    + rewrite exportIn_native by done.
      destruct (resolvedOutputs aliases t) as [[chainAlias outs]|] eqn:Hres.
      * destruct (createExportedOuts network chainAlias id outs) as [r|e'|m|] eqn:Hc;
          cbn [bind].
        -- rewrite IH. split.
           ++ intros (_ & a & o & [= <- <-] & Hc'). congruence.
           ++ intros (_ & a & o & [= <- <-] & Hc'). congruence.
        -- split.
           ++ intros [= ->]. split; [done|]. eauto.
           ++ intros (_ & a & o & [= <- <-] & Hc'). congruence.
        -- split; [done|]. intros (_ & a & o & [= <- <-] & Hc'). congruence.
        -- split; [done|]. intros (_ & a & o & [= <- <-] & Hc'). congruence.
      * cbn [bind]. rewrite IH. split.
        -- intros (_ & a & o & ? & _). done.
        -- intros (_ & a & o & ? & _). done.
    + rewrite exportIn_other by done. cbn [bind]. apply IH.
Qed.

(** X14. The errors of [crossChainTransaction], all of them: the error of
    the signing; the error "unsupported transaction" for a transaction that
    is neither an import nor an export; and, for an export with resolved
    exported outputs and an input of the native asset, the error of
    [createExportedOuts]. An export without input of the native asset
    does not fail on its exported outputs. *)
Theorem crossChainTransaction_Err rho network aliases rawIdx avaxAssetID tx e :
  crossChainTransaction rho network aliases rawIdx avaxAssetID tx = Err e
  <-> SignError tx = Some e
      \/ (SignError tx = None
          /\ exists name, Unsigned tx = UnsupportedTx name
                          /\ e = "unsupported transaction: " +:+ name)
      \/ (SignError tx = None
          /\ exists t chainAlias outs,
               Unsigned tx = ExportTx t
               /\ nativeIns avaxAssetID (Ins t) <> []
               /\ resolvedOutputs aliases t = Some (chainAlias, outs)
               /\ createExportedOuts network chainAlias (TxID tx) outs = Err e).
Proof.
  unfold crossChainTransaction.
  destruct (SignError tx) as [e'|].
  - split; [intros [= ->]; by left|].
    intros [[= ->]|[[? _]|[? _]]]; done.
  - destruct (Unsigned tx) as [t|t|name]; cbn [bind].
    + split; [done|]. intros [?|[(_ & ? & ? & _)|(_ & ? & ? & ? & ? & _)]]; done.
    + match goal with
      | |- bind ?f _ = _ <-> _ => destruct f as [st| | |] eqn:Hf
      end; cbn [bind].
      * split; [done|].
        intros [?|[(_ & ? & ? & _)|(_ & t' & a & o & [= <-] & Hne & Hres & Hc)]];
          [done..|].
        assert (Herr : foldM (exportIn network aliases avaxAssetID (TxID tx) t)
                         {| st_ops := []; st_idx := rawIdx; st_exportedOuts := [];
                            st_metadataSet := false; st_totalInputAmount := 0;
                            st_totalOutputAmount := 0 |} (Ins t) = Err e).
        { apply foldM_exportIn_Err. eauto. }
        congruence.
      * split.
        -- intros [= ->]. right. right. split; [done|].
           apply foldM_exportIn_Err in Hf as (Hne & a & o & Hres & Hc).
           exists t, a, o. done.
        -- intros [?|[(_ & ? & ? & _)|(_ & t' & a & o & [= <-] & Hne & Hres & Hc)]];
             [done..|].
           assert (Herr : foldM (exportIn network aliases avaxAssetID (TxID tx) t)
                            {| st_ops := []; st_idx := rawIdx; st_exportedOuts := [];
                               st_metadataSet := false; st_totalInputAmount := 0;
                               st_totalOutputAmount := 0 |} (Ins t) = Err e).
           { apply foldM_exportIn_Err. eauto. }
           congruence.
      * split; [done|].
        intros [?|[(_ & ? & ? & _)|(_ & t' & a & o & [= <-] & Hne & Hres & Hc)]];
          [done..|].
        assert (Herr : foldM (exportIn network aliases avaxAssetID (TxID tx) t)
                         {| st_ops := []; st_idx := rawIdx; st_exportedOuts := [];
                            st_metadataSet := false; st_totalInputAmount := 0;
                            st_totalOutputAmount := 0 |} (Ins t) = Err e).
        { apply foldM_exportIn_Err. eauto. }
        congruence.
      * split; [done|].
        intros [?|[(_ & ? & ? & _)|(_ & t' & a & o & [= <-] & Hne & Hres & Hc)]];
          [done..|].
        assert (Herr : foldM (exportIn network aliases avaxAssetID (TxID tx) t)
                         {| st_ops := []; st_idx := rawIdx; st_exportedOuts := [];
                            st_metadataSet := false; st_totalInputAmount := 0;
                            st_totalOutputAmount := 0 |} (Ins t) = Err e).
        { apply foldM_exportIn_Err. eauto. }
        congruence.
    + split.
      * intros [= <-]. right. left. eauto.
      * intros [?|[(_ & n & [= <-] & ->)|(_ & ? & ? & ? & ? & _)]]; done.
Qed.

(** ** The atomic transactions of a block *)

Lemma foldM_crossChainStep rho network aliases avaxAssetID txs : forall acc out,
  foldM (crossChainStep rho network aliases avaxAssetID) acc txs = Ok out ->
  exists new,
    out = acc ++ new
    /\ Forall2 (recordOf rho network aliases avaxAssetID) txs new.
Proof.
  induction txs as [|tx txs IH]; intros acc out H; cbn [foldM] in H.
  - simplify_eq. exists []. by rewrite app_nil_r.
  - apply bind_Ok in H as (acc1 & H1 & H).
    unfold crossChainStep in H1. apply bind_Ok in H1 as ([ops md] & Hr & H1).
    simplify_eq. apply IH in H as (new & -> & Hall).
    eexists (_ :: new). rewrite <- app_assoc. split; [done|].
    constructor; [|done]. by split.
Qed.

(** X15. The atomic transactions of a block. A block without payload has
    none, and nothing is decoded. Otherwise the payload is decoded as a
    batch exactly when the time of the block has reached the activation
    time, and when [CrossChainTransactions] returns there is one record
    for each decoded transaction, in order, with its id as hash and the
    operations and metadata of [crossChainTransaction] numbered from 0. *)
Theorem CrossChainTransactions_records ExtractAtomicTxs rho network aliases
    avaxAssetID block ap5Activation :
  (ExtData block = [] ->
   CrossChainTransactions ExtractAtomicTxs rho network aliases avaxAssetID
     block ap5Activation = Ok [])
  /\ (forall transactions,
        ExtData block <> [] ->
        CrossChainTransactions ExtractAtomicTxs rho network aliases avaxAssetID
          block ap5Activation = Ok transactions ->
        exists atomicTxs,
          ExtractAtomicTxs (ExtData block)
            (bool_decide (ap5Activation <= BlockTime block)) = Ok atomicTxs
          /\ Forall2 (recordOf rho network aliases avaxAssetID)
               atomicTxs transactions).
Proof.
  unfold CrossChainTransactions. split.
  - intros ->. done.
  - intros transactions Hne H.
    rewrite bool_decide_eq_false_2 in H by (by destruct (ExtData block)).
    apply bind_Ok in H as (atomicTxs & Hx & H). exists atomicTxs. split; [done|].
    apply foldM_crossChainStep in H as (new & -> & Hall). done.
Qed.

Lemma crossChainStep_Ok rho network aliases avaxAssetID acc tx r :
  crossChainTransaction rho network aliases 0 avaxAssetID tx = Ok r ->
  crossChainStep rho network aliases avaxAssetID acc tx
  = Ok (acc ++ [ {| AtomicHash := TxID tx; AtomicOperations := r.1;
                    AtomicMetadata := r.2 |} ]).
Proof. intros H. unfold crossChainStep. by rewrite H. Qed.

Lemma crossChainStep_Err rho network aliases avaxAssetID acc tx e :
  crossChainTransaction rho network aliases 0 avaxAssetID tx = Err e ->
  crossChainStep rho network aliases avaxAssetID acc tx = Err e.
Proof. intros H. unfold crossChainStep. by rewrite H. Qed.

Lemma foldM_crossChainStep_Ok rho network aliases avaxAssetID txs : forall acc,
  (forall tx, tx ∈ txs ->
     exists r, crossChainTransaction rho network aliases 0 avaxAssetID tx = Ok r) ->
  exists out, foldM (crossChainStep rho network aliases avaxAssetID) acc txs = Ok out.
Proof.
  induction txs as [|tx txs IH]; intros acc Hall; cbn [foldM]; [eauto|].
  destruct (Hall tx) as [r Hr]; [by left|].
  rewrite (crossChainStep_Ok _ _ _ _ _ _ _ Hr). cbn [bind].
  apply IH. intros tx' Hin. apply Hall. by right.
Qed.

(** X16. [CrossChainTransactions] returns all the records or none: the
    error of the decoding of the payload, or the error of the first
    atomic transaction that fails, is the result, and the records built
    before it are dropped. *)
Theorem CrossChainTransactions_first_error ExtractAtomicTxs rho network aliases
    avaxAssetID block ap5Activation e :
  ExtData block <> [] ->
  (ExtractAtomicTxs (ExtData block) (bool_decide (ap5Activation <= BlockTime block))
   = Err e ->
   CrossChainTransactions ExtractAtomicTxs rho network aliases avaxAssetID
     block ap5Activation = Err e)
  /\ (forall before tx after,
        ExtractAtomicTxs (ExtData block) (bool_decide (ap5Activation <= BlockTime block))
        = Ok (before ++ tx :: after) ->
        (forall tx', tx' ∈ before ->
           exists r, crossChainTransaction rho network aliases 0 avaxAssetID tx' = Ok r) ->
        crossChainTransaction rho network aliases 0 avaxAssetID tx = Err e ->
        CrossChainTransactions ExtractAtomicTxs rho network aliases avaxAssetID
          block ap5Activation = Err e).
Proof.
  intros Hne. unfold CrossChainTransactions.
  rewrite (bool_decide_eq_false_2 (length (ExtData block) = 0%nat))
    by (by destruct (ExtData block)).
  split.
  - intros ->. done.
  - intros before tx after -> Hbefore Htx. cbn [bind]. rewrite foldM_app.
    destruct (foldM_crossChainStep_Ok rho network aliases avaxAssetID before []
                Hbefore) as [out ->].
    cbn [bind foldM]. by rewrite (crossChainStep_Err _ _ _ _ _ _ _ Htx).
Qed.

(** ** The transaction ids of the mempool *)

Lemma Split_upTo s : exists chunks, Split s colon = upTo colon s :: chunks.
Proof.
  induction s as [|c s [chunks IH]]; cbn [Split upTo]; [eauto|].
  case_bool_decide; [eauto|]. rewrite IH. eauto.
Qed.

Lemma Join_Split s sep : Join (Split s sep) sep = s.
Proof.
  induction s as [|c s IH]; [done|]. cbn [Split].
  case_bool_decide as Hc.
  - subst. cbn [Join]. destruct (Split s sep) eqn:Hs.
    + cbn in IH. by subst.
    + by rewrite IH.
  - destruct (Split s sep) as [|chunk chunks] eqn:Hs.
    + cbn in IH. by subst.
    + cbn [Join] in *. destruct chunks; [by rewrite IH|].
      cbv [String.append] in *. fold String.append in *. by rewrite IH.
Qed.

Lemma upTo_no_sep sep s : sep ∉ Stdlib.Strings.String.list_ascii_of_string (upTo sep s).
Proof.
  induction s as [|c s IH]; cbn [upTo Stdlib.Strings.String.list_ascii_of_string].
  - apply not_elem_of_nil.
  - case_bool_decide; cbn [Stdlib.Strings.String.list_ascii_of_string]; [apply not_elem_of_nil|].
    apply not_elem_of_cons. by split.
Qed.

Lemma upTo_prefix sep s :
  s = upTo sep s \/ exists rest, s = upTo sep s +:+ String sep rest.
Proof.
  induction s as [|c s IH]; cbn [upTo]; [by left|].
  case_bool_decide as Hc.
  - subst. right. by exists s.
  - destruct IH as [IH | [rest IH]].
    + left. by rewrite <- IH.
    + right. exists rest. cbv [String.append]. fold String.append.
      by rewrite <- IH.
Qed.

Lemma mempoolID_upTo ids tx : mempoolID ids tx = Ok (ids ++ [upTo colon tx]).
Proof. unfold mempoolID. by destruct (Split_upTo tx) as [chunks ->]. Qed.

Lemma foldM_mempoolID txs : forall ids,
  foldM mempoolID ids txs = Ok (ids ++ (upTo colon <$> txs)).
Proof.
  induction txs as [|tx txs IH]; intros ids; cbn [foldM].
  - by rewrite fmap_nil, app_nil_r.
  - rewrite mempoolID_upTo. cbn [bind].
    by rewrite IH, fmap_cons, <- app_assoc.
Qed.

Lemma MempoolTransactionsIDs_upTo accountMap : forall ids,
  foldM (fun ids txNonceMap => foldM mempoolID ids txNonceMap) ids accountMap
  = Ok (ids ++ (upTo colon <$> mjoin accountMap)).
Proof.
  induction accountMap as [|txs accountMap IH]; intros ids; cbn [foldM].
  - by rewrite app_nil_r.
  - rewrite foldM_mempoolID. cbn [bind].
    change (mjoin (txs :: accountMap)) with (txs ++ mjoin accountMap).
    by rewrite IH, fmap_app, app_assoc.
Qed.

(** X17. [MempoolTransactionsIDs] never fails: the split of a string is
    never empty, so [chunks[0]] is there. It returns one identifier for
    each transaction of the mempool, in the order of the visit; the
    identifier holds no colon and is the transaction string up to its
    first colon, the whole string when it has none. *)
Theorem MempoolTransactionsIDs_spec accountMap :
  exists ids,
    MempoolTransactionsIDs accountMap = Ok ids
    /\ length ids = length (mjoin accountMap)
    /\ forall (k : nat) tx, mjoin accountMap !! k = Some tx ->
         exists id,
           ids !! k = Some id
           /\ (colon ∉ Stdlib.Strings.String.list_ascii_of_string id)
           /\ (tx = id \/ exists rest, tx = id +:+ String colon rest).
Proof.
  unfold MempoolTransactionsIDs. rewrite MempoolTransactionsIDs_upTo.
  eexists. split; [done|]. cbn [app]. split; [by rewrite length_fmap|].
  intros k tx Hk. exists (upTo colon tx). split.
  - by rewrite list_lookup_fmap, Hk.
  - split; [apply upTo_no_sep | apply upTo_prefix].
Qed.

(** ** Related operations come earlier *)

Lemma indexedFrom_tail start op (ops : list Operation) :
  indexedFrom start (op :: ops) -> indexedFrom (start + 1) ops.
Proof.
  intros H k op' Hk. rewrite (H (S k) op' Hk). f_equal. lia.
Qed.

Lemma wellLinked_related (ops : list Operation) :
  wellLinked ops ->
  forall start, indexedFrom start ops ->
  forall (k : nat) op, ops !! k = Some op ->
    RelatedOperations op = []
    \/ ((0 < k)%nat /\ RelatedOperations op = [start + Z.of_nat k - 1]).
Proof.
  induction 1 as [|op0 rest Hrel _ IH|debit credit rest Hpair _ IH];
    intros start Hidx k op Hk.
  - by rewrite lookup_nil in Hk.
  - destruct k as [|k]; cbn in Hk.
    + simplify_eq. by left.
    + destruct (IH (start + 1) (indexedFrom_tail _ _ _ Hidx) k op Hk)
        as [?|[Hk0 Hr]]; [by left|].
      right. split; [lia|]. rewrite Hr. f_equal. lia.
  - destruct Hpair as (i & Hd & Hdr & Hc & Hcr).
    destruct k as [|[|k]]; cbn in Hk.
    + simplify_eq. by left.
    + simplify_eq. right. split; [lia|]. rewrite Hcr. f_equal.
      pose proof (Hidx 0%nat debit eq_refl) as H0. rewrite Hd in H0.
      simplify_eq. lia.
    + apply indexedFrom_tail, indexedFrom_tail in Hidx.
      destruct (IH (start + 1 + 1) Hidx k op Hk) as [?|[Hk0 Hr]]; [by left|].
      right. split; [lia|]. rewrite Hr. f_equal. lia.
Qed.

Lemma logOps_wellLinked client mode whiteList unknown ops log ops' :
  logOps client mode whiteList unknown ops log = Ok ops' ->
  wellLinked ops -> wellLinked ops'.
Proof.
  unfold logOps. intros H Hl.
  repeat case_match; simplify_eq; try done;
    apply bind_Ok in H as (info & _ & H);
    repeat case_match; simplify_eq; try done;
    apply bind_Ok in H as (new & Hnew & H); simplify_eq;
    (apply wellLinked_app; [done|]).
  - apply erc721Ops_shape in Hnew as (t1 & t2 & _ & _ & [(op & -> & Hr & _)|
                                       (a & b & -> & Hp & _)]).
    + apply wellLinked_single; [done | constructor].
    + apply wellLinked_pair; [done | constructor].
  - apply erc20Ops_shape in Hnew as (t1 & t2 & _ & _ & [(op & -> & Hr & _)|
                                      (a & b & -> & Hp & _)]).
    + apply wellLinked_single; [done | constructor].
    + apply wellLinked_pair; [done | constructor].
Qed.

(** X18. In a transaction that [Transaction] assembles, an operation
    either has no related operation, or has exactly one, which is the
    operation just before it in the list: a related operation always has
    a smaller index and belongs to the same transaction. *)
Theorem Transaction_related_operations
    rho input receipt trace flattenedTrace client mode whiteList unknown tx :
  Transaction rho input receipt trace flattenedTrace client mode whiteList unknown = Ok tx ->
  forall (k : nat) op, Operations tx !! k = Some op ->
    OperationIdentifier op = Some (Z.of_nat k)
    /\ (RelatedOperations op = []
        \/ ((0 < k)%nat /\ RelatedOperations op = [Z.of_nat k - 1])).
Proof.
  intros H k op Hk.
  destruct (Transaction_Ok _ _ _ _ _ _ _ _ _ _ H) as (rest & _ & Hidx).
  split; [by rewrite (Hidx k op Hk)|].
  assert (Hl : wellLinked (Operations tx)).
  { unfold Transaction in H.
    apply bind_Ok in H as (tops & Htrace & H).
    apply bind_Ok in H as (ops & Hlogs & H). simplify_eq. cbn [Operations].
    eapply (foldM_invariant wellLinked); [| |exact Hlogs].
    - intros o log o' Ho Hstep. by eapply logOps_wellLinked.
    - cbn [app feeOps]. apply wellLinked_pair; [by exists 0|].
      by eapply traceOps_wellLinked. }
  destruct (wellLinked_related _ Hl 0 Hidx k op Hk) as [?|[? Hr]]; [by left|].
  right. split; [done|]. by rewrite Hr.
Qed.

End Properties.

(** ** The concrete environment and the concrete inputs *)

#[local] Existing Instance stdEnv.

Lemma stdEnv_facts : EnvFacts stdEnv.
Proof.
  split.
  - reflexivity.
  - intros a b H. unfold AddressString, stdEnv in H.
    apply (inj (String.append "0x")) in H. by apply (inj pretty) in H.
  - intros a. unfold AddressString, stdEnv.
    cbv [String.append]. cbn [String.length]. lia.
Qed.

Lemma valid_range_id : valid_range id.
Proof. intros l. done. Qed.

Lemma valid_range_reverse : valid_range reverse.
Proof. intros l. apply reverse_Permutation. Qed.

Lemma Transaction_indices_gap_free_witness :
  match Transaction id exampleInput exampleReceipt None exampleTrace
          exampleClient true [] false with
  | Ok tx =>
      OperationIdentifier <$> Operations tx
      = (fun k : nat => Some (Z.of_nat k)) <$> seq 0 (length (Operations tx))
  | _ => False
  end.
Proof.
  destruct (Transaction id exampleInput exampleReceipt None exampleTrace
              exampleClient true [] false) as [tx|e|m|] eqn:H;
    [| vm_compute in H; discriminate H ..].
  exact (Transaction_indices_gap_free _ _ _ _ _ _ _ _ _ _ H).
Defined.

Lemma fee_operations_witness :
  match Transaction id exampleInput exampleReceipt None exampleTrace
          exampleClient true [] false with
  | Ok tx => take 2 (Operations tx) = feeOps 1 9 21000 25
  | _ => False
  end.
Proof.
  destruct (Transaction id exampleInput exampleReceipt None exampleTrace
              exampleClient true [] false) as [tx|e|m|] eqn:H;
    [| vm_compute in H; discriminate H ..].
  exact (proj1 (proj2 (fee_operations 1 9 21000 25)) _ _ _ _ _ _ _ _ _ _ H).
Defined.

(** C3 fails on an import with an input of another asset: the fee counts
    it. The
    import of a single input of amount 5 of another asset has fee 5, and
    not the 0 of the native-asset inputs minus the native-asset outputs. *)
Lemma txFee_native_only_counterexample :
  crossChainTransaction (E:=stdEnv) id "net" exampleAliases 0 "AVAX" importOfOtherAsset
  = Ok ([], {| exported_outputs := None;
               tx_fee := Some {| Value := 5; AmountCurrency := AtomicAvaxCurrency |} |})
  /\ nativeFee "AVAX" (Unsigned importOfOtherAsset) = 0
  /\ ~ (forall operations metadata,
          crossChainTransaction (E:=stdEnv) id "net" exampleAliases 0 "AVAX"
            importOfOtherAsset = Ok (operations, metadata) ->
          tx_fee metadata
          = AtomicAvaxAmount (nativeFee "AVAX" (Unsigned importOfOtherAsset))).
Proof.
  split; [reflexivity|]. split; [reflexivity|].
  intros H. specialize (H _ _ eq_refl). discriminate H.
Qed.

Lemma txFee_settled_witness :
  match crossChainTransaction id "net" exampleAliases 0 "AVAX" exportOfOneInput with
  | Ok (_, metadata) => tx_fee metadata = AtomicAvaxAmount (1000 - 900)
  | _ => False
  end.
Proof.
  destruct (crossChainTransaction id "net" exampleAliases 0 "AVAX" exportOfOneInput)
    as [[operations metadata]|e|m|] eqn:H;
    [| vm_compute in H; discriminate H ..].
  apply (txFee_settled id "net" exampleAliases 0 "AVAX" exportOfOneInput
           operations metadata); [|exact H].
  left. reflexivity.
Defined.

(** C4, on the code. The export of two native-asset inputs and one
    exported output: the exported output is emitted once for each of the two inputs, with the
    same UTXO id, at the indices 2 and 3 after the two input operations,
    and its amount is counted twice in the fee. *)
Lemma exported_outs_repeated_per_input :
  exists operations exported,
    crossChainTransaction (E:=stdEnv) id "net" exampleAliases 0 "AVAX" exportOfTwoInputs
    = Ok (operations, {| exported_outputs := Some exported;
                         tx_fee := AtomicAvaxAmount (E:=stdEnv) (1000 - 2 * 900) |})
    /\ OperationIdentifier <$> operations = [Some 0; Some 1]
    /\ OperationIdentifier <$> exported = [Some 2; Some 3]
    /\ CoinChange <$> exported
       = [Some ({| UTXO_TxID := "tx5"; UTXO_OutputIndex := 0 |}, CoinCreated);
          Some ({| UTXO_TxID := "tx5"; UTXO_OutputIndex := 0 |}, CoinCreated)]
    /\ (fun op => Value <$> OpAmount op) <$> exported = [Some 900; Some 900].
Proof. eexists _, _. split; [reflexivity|]. repeat split. Qed.

Lemma credit_references_debit_witness :
  match traceOps id exampleTrace 2 with
  | Ok out => wellLinked out
  | _ => False
  end.
Proof.
  destruct (traceOps id exampleTrace 2) as [out|e|m|] eqn:H;
    [| vm_compute in H; discriminate H ..].
  exact (proj1 (proj2 credit_references_debit) _ _ _ _ H).
Defined.

(** C6 fails on its own trace. The call of B by A with value 100 followed
    by the self-destruct of B to A gives four operations, the last two for the
    self-destruct, and no operation of account destruction; not the pair
    followed by a destruction of -100 on B. *)
Lemma trace_example_counterexample :
  traceOps (E:=stdEnv) id [callAB; selfDestructBA] 0
  = Ok [fromOp (E:=stdEnv) callAB 0; toOp (E:=stdEnv) callAB 0;
        fromOp (E:=stdEnv) selfDestructBA 2; toOp (E:=stdEnv) selfDestructBA 2]
  /\ traceOps (E:=stdEnv) id [callAB; selfDestructBA] 0
     <> Ok [fromOp (E:=stdEnv) callAB 0; toOp (E:=stdEnv) callAB 0;
            destructOp (E:=stdEnv) (AddressString (Env:=stdEnv) 2) 100 2].
Proof.
  split; [vm_compute; reflexivity|]. intros H.
  apply (f_equal (fun r => match r with Ok l => length l | _ => 0%nat end)) in H.
  vm_compute in H. discriminate H.
Qed.

Lemma trace_call_then_selfdestruct_witness :
  traceOps (E:=stdEnv) id [callAB; selfDestructBA] 0
  = Ok [fromOp (E:=stdEnv) callAB 0; toOp (E:=stdEnv) callAB 0;
        fromOp (E:=stdEnv) selfDestructBA (0 + 2); toOp (E:=stdEnv) selfDestructBA (0 + 2)].
Proof.
  apply (trace_call_then_selfdestruct (E:=stdEnv) stdEnv_facts id "CALL" 1 2 0).
  - discriminate.
  - lia.
Defined.

Lemma zero_value_calls_skipped_witness :
  traceCall (E:=stdEnv) 2 ([], ∅) zeroCallAB = Ok ([], ledgerOnly (E:=stdEnv) zeroCallAB ∅)
  /\ exists a, OpAmount (fromOp (E:=stdEnv) callAB 2) = Some a /\ Value a <> 0.
Proof.
  split.
  - apply (proj1 (zero_value_calls_skipped (E:=stdEnv))); reflexivity.
  - apply (proj2 (zero_value_calls_skipped (E:=stdEnv)) id [callAB; zeroCallAB] 2
             [fromOp (E:=stdEnv) callAB 2; toOp (E:=stdEnv) callAB 2]).
    + vm_compute. reflexivity.
    + left.
    + reflexivity.
Defined.

(** C8 fails on an import of two source transactions. The [tx_ids] list
    depends on the order in which the runtime ranges
    over the map of the source transaction ids: two orders that both
    visit every key once give the lists [a; b] and [b; a] for the same
    import, so two runs need not give the same list. *)
Lemma import_tx_ids_order_counterexample :
  valid_range id /\ valid_range reverse
  /\ (exists operations metadata,
        crossChainTransaction id "net" exampleAliases 0 "AVAX" importOfTwoSources
        = Ok (operations, metadata)
        /\ tx_ids <$> operations = [Some (MStrings ["a"; "b"])])
  /\ (exists operations metadata,
        crossChainTransaction reverse "net" exampleAliases 0 "AVAX" importOfTwoSources
        = Ok (operations, metadata)
        /\ tx_ids <$> operations = [Some (MStrings ["b"; "a"])])
  /\ ~ (forall rho rho', valid_range rho -> valid_range rho' ->
          crossChainTransaction rho "net" exampleAliases 0 "AVAX" importOfTwoSources
          = crossChainTransaction rho' "net" exampleAliases 0 "AVAX" importOfTwoSources).
Proof.
  split; [apply valid_range_id|]. split; [apply valid_range_reverse|].
  split; [|split].
  - destruct (crossChainTransaction id "net" exampleAliases 0 "AVAX" importOfTwoSources)
      as [[operations metadata]|e|m|] eqn:H;
      [| vm_compute in H; discriminate H ..].
    exists operations, metadata. split; [done|].
    vm_compute in H. injection H as <- _. vm_compute. reflexivity.
  - destruct (crossChainTransaction reverse "net" exampleAliases 0 "AVAX" importOfTwoSources)
      as [[operations metadata]|e|m|] eqn:H;
      [| vm_compute in H; discriminate H ..].
    exists operations, metadata. split; [done|].
    vm_compute in H. injection H as <- _. vm_compute. reflexivity.
  - intros H.
    specialize (H id reverse valid_range_id valid_range_reverse).
    apply (f_equal (fun r => match r with
                             | Ok (o, _) => tx_ids <$> o
                             | _ => []
                             end)) in H.
    vm_compute in H. discriminate H.
Qed.

Lemma import_tx_ids_witness :
  match crossChainTransaction id "net" exampleAliases 0 "AVAX" importOfTwoSources,
        crossChainTransaction reverse "net" exampleAliases 0 "AVAX" importOfTwoSources with
  | Ok (operations, _), Ok (operations', _) =>
      exists txIDs txIDs',
        (forall op, op ∈ operations -> tx_ids op = Some (MStrings txIDs))
        /\ (forall op, op ∈ operations' -> tx_ids op = Some (MStrings txIDs'))
        /\ NoDup txIDs
        /\ (forall id, id ∈ txIDs <-> id ∈ ["a"; "b"; "a"])
        /\ txIDs ≡ₚ txIDs'
  | _, _ => False
  end.
Proof.
  destruct (crossChainTransaction id "net" exampleAliases 0 "AVAX" importOfTwoSources)
    as [[operations metadata]|e|m|] eqn:H;
    [| vm_compute in H; discriminate H ..].
  destruct (crossChainTransaction reverse "net" exampleAliases 0 "AVAX" importOfTwoSources)
    as [[operations' metadata']|e|m|] eqn:H';
    [| vm_compute in H'; discriminate H' ..].
  exact (import_tx_ids id reverse "net" exampleAliases 0 "AVAX"
           importOfTwoSources importOfTwoSources _ _ _ _ _ _
           valid_range_id valid_range_reverse eq_refl eq_refl
           (reflexivity _) H H').
Defined.

Lemma lookup_failure_aborts_witness :
  Transaction id exampleInput exampleReceipt None exampleTrace failingClient true [] false
  = Err "contract info unavailable".
Proof.
  destruct (traceOps id exampleTrace 2) as [tops|e|m|] eqn:Ht;
    [| vm_compute in Ht; discriminate Ht ..].
  apply (proj2 (lookup_failure_aborts id exampleInput exampleReceipt None exampleTrace
                  failingClient true [] false)
           tops [erc20Log] erc721Log [] "contract info unavailable" Ht).
  - reflexivity.
  - intros l Hl _. apply list_elem_of_singleton in Hl as ->. by eexists.
  - reflexivity.
  - reflexivity.
Defined.

Lemma import_amount_through_int64_witness :
  crossChainTransaction id "net" exampleAliases 0 "AVAX" importOfLargeAmount
  = Ok ([], {| exported_outputs := None;
               tx_fee := AtomicAvaxAmount (2 ^ 63 - 2 ^ 64) |})
  /\ 2 ^ 63 - 2 ^ 64 < 0.
Proof.
  apply (proj2 (import_amount_through_int64 id "net" exampleAliases 0 "AVAX"
                  importOfLargeAmount _ eq_refl)
           {| InputTxID := "src"; InputAssetID := "AVAX"; InputAmount := 2 ^ 63 |}).
  - reflexivity.
  - reflexivity.
  - reflexivity.
  - cbn [InputAmount]. lia.
Defined.

(** ** The further results on the concrete inputs *)

Lemma traceOps_output_witness :
  match traceOps id liquidationTrace 2 with
  | Ok out =>
      out = traceCallOps 2 liquidationTrace
            ++ liquidations (rangeEntries id (finalLedger 2 liquidationTrace))
                 (2 + Z.of_nat (length (traceCallOps 2 liquidationTrace)))
  | _ => False
  end.
Proof.
  destruct (traceOps id liquidationTrace 2) as [out|e|m|] eqn:H;
    [| vm_compute in H; discriminate H ..].
  exact (proj1 (traceOps_output id liquidationTrace 2 out H)).
Defined.

Lemma traceOps_Fatal_iff_witness :
  exists msg, traceOps id negativeTrace 2 = Fatal msg.
Proof.
  apply (proj2 (traceOps_Fatal_iff id negativeTrace 2 valid_range_id)).
  exists "0x2", (-5). split; [vm_compute; reflexivity | lia].
Defined.

Lemma reverted_call_keeps_balances_witness :
  traceCall 2 ([], {[ "0x2" := 7 ]}) revertedCall
  = Ok ([] ++ callOps revertedCall (Z.of_nat (length (@nil Operation)) + 2),
        ledgerOnly revertedCall {[ "0x2" := 7 ]}).
Proof.
  exact (proj1 (reverted_call_keeps_balances 2 [] {[ "0x2" := 7 ]} revertedCall
                  eq_refl)).
Defined.

Lemma traceOps_without_selfdestruct_witness :
  traceOps id [callAB; zeroCallAB] 2 = Ok (traceCallOps 2 [callAB; zeroCallAB]).
Proof.
  apply (traceOps_without_selfdestruct id [callAB; zeroCallAB] 2).
  repeat constructor; discriminate.
Defined.

Lemma selfdestruct_resets_balance_witness :
  match traceCall 0 ([], {[ "0x2" := 100 ]}) selfDestructBA with
  | Ok st => st.2 !! "0x2" = Some 0
  | _ => False
  end.
Proof.
  destruct (traceCall 0 ([], {[ "0x2" := 100 ]}) selfDestructBA) as [st|e|m|] eqn:H;
    [| vm_compute in H; discriminate H ..].
  exact (selfdestruct_resets_balance 0 [] {[ "0x2" := 100 ]} selfDestructBA st
           eq_refl H).
Defined.

Lemma token_ops_topic_bounds_witness :
  erc20Ops shortLog AvaxCurrency 2 = Panic
  /\ exists out, erc20Ops erc20Log AvaxCurrency 2 = Ok out /\ (1 <= length out <= 2)%nat.
Proof.
  split.
  - apply (proj1 (token_ops_topic_bounds shortLog AvaxCurrency 2)). cbn. lia.
  - apply (proj1 (proj2 (token_ops_topic_bounds erc20Log AvaxCurrency 2))). cbn. lia.
Defined.

Lemma Transaction_returns_witness :
  match traceOps id exampleTrace 2 with
  | Ok tops =>
      exists tx tokens,
        Transaction id exampleInput exampleReceipt None exampleTrace exampleClient
          true [] false = Ok tx
        /\ TransactionHash tx = HashString 77
        /\ Operations tx = feeOps 1 9 21000 25 ++ tops ++ tokens
  | _ => False
  end.
Proof.
  destruct (traceOps id exampleTrace 2) as [tops|e|m|] eqn:H;
    [| vm_compute in H; discriminate H ..].
  apply (Transaction_returns id exampleInput exampleReceipt None exampleTrace
           exampleClient true [] false tops H).
  intros log _ _. unfold contractLookup, exampleClient.
  destruct (bool_decide _); eauto.
Defined.

Lemma createExportedOuts_spec_witness :
  match createExportedOuts "net" "X" "tx4" [exportedOutput] with
  | Ok (operations, total) => length operations = 1%nat /\ total = 900
  | _ => False
  end.
Proof.
  destruct (createExportedOuts "net" "X" "tx4" [exportedOutput])
    as [[operations total]|e|m|] eqn:H;
    [| vm_compute in H; discriminate H ..].
  destruct (createExportedOuts_spec "net" "X" "tx4" [exportedOutput] operations
              total H) as (hrp & _ & Hlen & Htotal & _).
  split; [exact Hlen | exact Htotal].
Defined.

Lemma import_operations_witness :
  exists txIDs fee,
    crossChainTransaction id "net" exampleAliases 0 "AVAX" importOfTwoSources
    = Ok ([importOp "tx2"
             {| ImportNetworkID := 1; ImportBlockchainID := "chainC";
                SourceChain := "chainX";
                ImportedInputs := [ {| InputTxID := "a"; InputAssetID := "AVAX";
                                       InputAmount := 60 |};
                                    {| InputTxID := "b"; InputAssetID := "AVAX";
                                       InputAmount := 50 |};
                                    {| InputTxID := "a"; InputAssetID := "AVAX";
                                       InputAmount := 1 |} ];
                Outs := [ {| OutAddress := 3; OutAmount := 100;
                             OutAssetID := "AVAX" |} ] |}
             txIDs {| OutAddress := 3; OutAmount := 100; OutAssetID := "AVAX" |} 0],
          {| exported_outputs := None; tx_fee := AtomicAvaxAmount fee |}).
Proof.
  destruct (import_operations id "net" exampleAliases 0 "AVAX" importOfTwoSources _
              eq_refl eq_refl) as (txIDs & fee & H & _).
  exists txIDs, fee. exact H.
Defined.

Lemma export_operations_witness :
  match crossChainTransaction id "net" exampleAliases 0 "AVAX" exportOfTwoInputs with
  | Ok (operations, metadata) =>
      operations
      = imap (fun i inp =>
                exportOp "tx5"
                  {| ExportNetworkID := 1; ExportBlockchainID := "chainC";
                     DestinationChain := "chainX";
                     Ins := [ {| InAddress := 4; InAmount := 600; InAssetID := "AVAX" |};
                              {| InAddress := 5; InAmount := 400; InAssetID := "AVAX" |} ];
                     ExportedOutputs := Some [exportedOutput] |}
                  inp (0 + Z.of_nat i))
          [ {| InAddress := 4; InAmount := 600; InAssetID := "AVAX" |};
            {| InAddress := 5; InAmount := 400; InAssetID := "AVAX" |} ]
  | _ => False
  end.
Proof.
  destruct (crossChainTransaction id "net" exampleAliases 0 "AVAX" exportOfTwoInputs)
    as [[operations metadata]|e|m|] eqn:H;
    [| vm_compute in H; discriminate H ..].
  exact (proj1 (export_operations id "net" exampleAliases 0 "AVAX" exportOfTwoInputs _
                  operations metadata eq_refl H)).
Defined.

Lemma crossChainTransaction_indices_witness :
  match crossChainTransaction id "net" exampleAliases 5 "AVAX" exportOfTwoInputs with
  | Ok (operations, metadata) =>
      OperationIdentifier <$> operations
      = (fun k : nat => Some (5 + Z.of_nat k)) <$> seq 0 (length operations)
  | _ => False
  end.
Proof.
  destruct (crossChainTransaction id "net" exampleAliases 5 "AVAX" exportOfTwoInputs)
    as [[operations metadata]|e|m|] eqn:H;
    [| vm_compute in H; discriminate H ..].
  exact (proj1 (crossChainTransaction_indices id "net" exampleAliases 5 "AVAX"
                  exportOfTwoInputs operations metadata H)).
Defined.

Lemma CrossChainTransactions_records_witness :
  match CrossChainTransactions extractTwo id "net" exampleAliases "AVAX"
          exampleBlock 10 with
  | Ok transactions =>
      exists atomicTxs,
        extractTwo [1; 2; 3] true = Ok atomicTxs
        /\ Forall2 (recordOf id "net" exampleAliases "AVAX") atomicTxs transactions
  | _ => False
  end.
Proof.
  destruct (CrossChainTransactions extractTwo id "net" exampleAliases "AVAX"
              exampleBlock 10) as [transactions|e|m|] eqn:H;
    [| vm_compute in H; discriminate H ..].
  apply (proj2 (CrossChainTransactions_records extractTwo id "net" exampleAliases
                  "AVAX" exampleBlock 10) transactions); [discriminate | exact H].
Defined.

Lemma CrossChainTransactions_first_error_witness :
  CrossChainTransactions extractUnsupported id "net" exampleAliases "AVAX"
    exampleBlock 10
  = Err "unsupported transaction: *evm.TestTx".
Proof.
  assert (Hne : ExtData exampleBlock <> []) by discriminate.
  apply (proj2 (CrossChainTransactions_first_error extractUnsupported id "net"
                  exampleAliases "AVAX" exampleBlock 10 _ Hne)
           [importOfTwoSources] unsupportedTx [exportOfOneInput]).
  - reflexivity.
  - intros tx' Hin. apply list_elem_of_singleton in Hin as ->.
    destruct (crossChainTransaction id "net" exampleAliases 0 "AVAX" importOfTwoSources)
      as [r|e|m|] eqn:H; [eauto | vm_compute in H; discriminate H ..].
  - reflexivity.
Defined.

Lemma Transaction_related_operations_witness :
  match Transaction id exampleInput exampleReceipt None exampleTrace
          exampleClient true [] false with
  | Ok tx =>
      forall (k : nat) op, Operations tx !! k = Some op ->
        OperationIdentifier op = Some (Z.of_nat k)
        /\ (RelatedOperations op = []
            \/ ((0 < k)%nat /\ RelatedOperations op = [Z.of_nat k - 1]))
  | _ => False
  end.
Proof.
  destruct (Transaction id exampleInput exampleReceipt None exampleTrace
              exampleClient true [] false) as [tx|e|m|] eqn:H;
    [| vm_compute in H; discriminate H ..].
  exact (Transaction_related_operations _ _ _ _ _ _ _ _ _ _ H).
Defined.
